(** * MemoryLeakGateway: a shallow embedding of [src/memory-leak.gateway.ts]

    The gateway is a NestJS/socket.io class whose handlers mutate three
    collections ([userSessions], [globalEventHandlers], [messageHistory]),
    create and clear interval timers, and emit events on client sockets.
    Handlers are embedded as computations in a small state-and-exception
    monad over a [World]; the world also carries the runtime's table of
    active intervals, the listeners registered on sockets, and a
    chronological trace of the observable effects (emits, [clearInterval]
    calls, log lines).

    Conventions of the embedding:
    - session objects live in a store ([heap]) and are named by their
      location, so that the JS [Map], the timer closures and the update
      payloads can share one object by reference;
    - the JS [Map] is an association list in insertion order ([set] on a
      present key keeps its position), since [generateFakeUpdates] searches
      [values()] in that order;
    - closures are data: a timer task or a listener records what it
      captured;
    - [Date.now()] and [new Date()] read the next value of a clock oracle
      [clock : nat -> Z]; the world counts the reads;
    - JS numbers are restricted to integers ([Z]); a message body whose
      [iterations] field is missing is [None]; [toString] of a number is its
      decimal ([pretty]), which is what JS prints for the integers a
      [number] holds exactly (magnitude below 2^53);
    - a [Buffer] is represented by its length and fill byte, not by its
      bytes. *)

From Stdlib Require Import ZArith Lia Ascii Sorted.
From stdpp Require Import gmap strings list fin_maps pretty.

Local Open Scope string_scope.
Local Open Scope list_scope.
Local Open Scope stdpp_scope.
Local Open Scope nat_scope.

(** ** Data model *)

(** Reference to a [UserSession] object. *)
Definition loc := nat.

(** A [NodeJS.Timeout] handle returned by [setInterval]. *)
Definition TimerId := nat.

Record Buffer := mkBuffer {
  buf_length : N;
  buf_fill : ascii
}.

Definition Buffer_alloc (size : N) : Buffer :=
  {| buf_length := size; buf_fill := "000"%char |}.

Definition Buffer_fill (c : ascii) (b : Buffer) : Buffer :=
  {| buf_length := buf_length b; buf_fill := c |}.

(** [heartbeatCallback]: the closure captures the client socket. *)
Inductive Callback :=
| heartbeatCallback (socket : string).

Record Listener := mkListener {
  event : string;
  callback : Callback
}.

(** [globalHandler]: the closure captures the client socket. *)
Inductive GlobalHandler :=
| globalHandler (socket : string).

Record UserSession := mkUserSession {
  userId : string;
  socketId : string;
  data : Buffer;
  timers : list TimerId;
  intervals : list TimerId;
  listeners : list Listener
}.

Record HistoryEntry := mkHistoryEntry {
  hist_timestamp : Z;
  hist_message : string;
  hist_userId : string
}.

(** What the callback of an interval does when it fires. *)
Inductive TimerTask :=
| globalTimer
| connectionTimer (socket : string) (session : loc)
| updateInterval (socket : string) (uid : string).

Record Interval := mkInterval {
  task : TimerTask;
  period : Z
}.

(** The client socket as far as the gateway reads it: [client.id] and
    [client.handshake.auth?.userId]. *)
Record Socket := mkSocket {
  client_id : string;
  auth_userId : option string
}.

(** One element of the [updates] array built by [generateFakeUpdates];
    [sessionData] is the reference found in [userSessions], or [None] for
    [undefined]. *)
Record Update := mkUpdate {
  upd_id : nat;
  upd_message : string;
  sessionData : option loc;
  upd_timestamp : Z
}.

Record MemoryUsage := mkMemoryUsage {
  rss : Z;
  heapUsed : Z;
  heapTotal : Z;
  external : Z
}.

Record Stats := mkStats {
  memoryUsage : MemoryUsage;
  activeSessions : nat;
  messageHistoryLength : nat;
  globalHandlers : nat
}.

Inductive Payload :=
| heartbeat (timestamp : Z)
| computation_result (iteration : Z) (size : N) (timestamp : Z)
| user_updates (uid : string) (updates : list Update)
| memory_stats (stats : Stats)
| gc_result (before after freed : Z)
| gc_error (error : string).

Inductive Effect :=
| Emit (socket : string) (p : Payload)
| ClearInterval (t : TimerId)
| LoggerLog (msg : string)
| LoggerDebug (msg : string)
| LogMemoryUsage (context : string) (sessions history : nat).

Inductive Exn :=
| TypeError (msg : string).

Inductive Outcome (A : Type) :=
| Returned (a : A)
| Thrown (e : Exn).
Arguments Returned {A} a.
Arguments Thrown {A} e.

(** ** The JS [Map], in insertion order *)

Module JsMap.
Section Ops.
Context {V : Type}.

Fixpoint get (k : string) (m : list (string * V)) : option V :=
match m with
| [] => None
| (k', v) :: m' => if decide (k' = k) then Some v else get k m'
end.

Fixpoint set (k : string) (v : V) (m : list (string * V)) : list (string * V) :=
match m with
| [] => [(k, v)]
| (k', v') :: m' =>
    if decide (k' = k) then (k, v) :: m' else (k', v') :: set k v m'
end.

Definition size (m : list (string * V)) : nat := length m.

Definition values (m : list (string * V)) : list V := m.*2.

Definition keys (m : list (string * V)) : list string := m.*1.
End Ops.
End JsMap.

(** ** The world *)

Record World := mkWorld {
  heap : list UserSession;
  userSessions : list (string * loc);
  globalEventHandlers : list GlobalHandler;
  messageHistory : list HistoryEntry;
  activeIntervals : gmap TimerId Interval;
  nextTimer : TimerId;
  socketListeners : list (string * Listener);
  clockReads : nat;
  trace : list Effect
}.

Definition with_heap (f : list UserSession → list UserSession) (w : World) : World :=
  mkWorld (f (heap w)) (userSessions w) (globalEventHandlers w) (messageHistory w)
          (activeIntervals w) (nextTimer w) (socketListeners w) (clockReads w) (trace w).

Definition with_userSessions (f : list (string * loc) → list (string * loc)) (w : World) : World :=
  mkWorld (heap w) (f (userSessions w)) (globalEventHandlers w) (messageHistory w)
          (activeIntervals w) (nextTimer w) (socketListeners w) (clockReads w) (trace w).

Definition with_globalEventHandlers (f : list GlobalHandler → list GlobalHandler) (w : World) : World :=
  mkWorld (heap w) (userSessions w) (f (globalEventHandlers w)) (messageHistory w)
          (activeIntervals w) (nextTimer w) (socketListeners w) (clockReads w) (trace w).

Definition with_messageHistory (f : list HistoryEntry → list HistoryEntry) (w : World) : World :=
  mkWorld (heap w) (userSessions w) (globalEventHandlers w) (f (messageHistory w))
          (activeIntervals w) (nextTimer w) (socketListeners w) (clockReads w) (trace w).

Definition with_intervals (f : gmap TimerId Interval → gmap TimerId Interval)
    (next : TimerId) (w : World) : World :=
  mkWorld (heap w) (userSessions w) (globalEventHandlers w) (messageHistory w)
          (f (activeIntervals w)) next (socketListeners w) (clockReads w) (trace w).

Definition with_socketListeners (f : list (string * Listener) → list (string * Listener))
    (w : World) : World :=
  mkWorld (heap w) (userSessions w) (globalEventHandlers w) (messageHistory w)
          (activeIntervals w) (nextTimer w) (f (socketListeners w)) (clockReads w) (trace w).

Definition with_clockReads (n : nat) (w : World) : World :=
  mkWorld (heap w) (userSessions w) (globalEventHandlers w) (messageHistory w)
          (activeIntervals w) (nextTimer w) (socketListeners w) n (trace w).

Definition with_effect (e : Effect) (w : World) : World :=
  mkWorld (heap w) (userSessions w) (globalEventHandlers w) (messageHistory w)
          (activeIntervals w) (nextTimer w) (socketListeners w) (clockReads w) (trace w ++ [e]).

(** ** The monad of handlers: state, with exceptions that keep the state *)

Definition M (A : Type) : Type := World → Outcome A * World.

#[global] Instance M_ret : MRet M := λ A a w, (Returned a, w).

#[global] Instance M_bind : MBind M := λ A B f m w,
  match m w with
  | (Returned a, w') => f a w'
  | (Thrown e, w') => (Thrown e, w')
  end.

Definition throw {A} (e : Exn) : M A := λ w, (Thrown e, w).
Definition gets {A} (f : World → A) : M A := λ w, (Returned (f w), w).
Definition modify (f : World → World) : M unit := λ w, (Returned (), f w).

Fixpoint mapM {A B} (f : A → M B) (l : list A) : M (list B) :=
  match l with
  | [] => mret []
  | a :: l' => b ← f a; bs ← mapM f l'; mret (b :: bs)
  end.

Fixpoint forEach {A} (f : A → M unit) (l : list A) : M unit :=
  match l with
  | [] => mret ()
  | a :: l' => f a;; forEach f l'
  end.

(** [Array.prototype.slice(-k)]: the last [k] elements, or all of them when
    there are fewer. *)
Definition slice_last {A} (k : nat) (l : list A) : list A :=
  drop (length l - k) l.

(** [Math.round(x / 1024 / 1024)] on an integer [x]. *)
Definition round_MB (x : Z) : Z := ((x + 524288) / 1048576)%Z.

(** Message bodies and handler results. [preferences] is typed [any] and is
    never read; it is not represented. *)
Record SubscribeData := mkSubscribeData {
  sub_userId : string
}.

Record Subscribed := mkSubscribed {
  status : string;
  subscribed_userId : string
}.

Record Computed := mkComputed {
  processed : Z
}.

(** ** The gateway *)

Section Gateway.

(** The value of the [n]-th read of the wall clock. *)
Variable clock : nat → Z.

(** *** Runtime primitives *)

Definition Date_now : M Z := λ w,
  (Returned (clock (clockReads w)), with_clockReads (S (clockReads w)) w).

Definition logger_log (msg : string) : M unit := modify (with_effect (LoggerLog msg)).
Definition logger_debug (msg : string) : M unit := modify (with_effect (LoggerDebug msg)).

Definition client_emit (socket : string) (p : Payload) : M unit :=
  modify (with_effect (Emit socket p)).

Definition client_on (socket : string) (l : Listener) : M unit :=
  modify (with_socketListeners (λ ls, ls ++ [(socket, l)])).

Definition setInterval (t : TimerTask) (ms : Z) : M TimerId := λ w,
  (Returned (nextTimer w),
   with_intervals (<[nextTimer w := mkInterval t ms]>) (S (nextTimer w)) w).

Definition clearInterval (t : TimerId) : M unit := λ w,
  (Returned (), with_effect (ClearInterval t) (with_intervals (delete t) (nextTimer w) w)).

(** Object creation and field access through a reference. *)
Definition new_session (s : UserSession) : M loc := λ w,
  (Returned (length (heap w)), with_heap (λ h, h ++ [s]) w).

Definition deref (l : loc) : M UserSession := λ w,
  match heap w !! l with
  | Some s => (Returned s, w)
  | None => (Thrown (TypeError "Cannot read properties of undefined"), w)
  end.

Definition update_session (l : loc) (f : UserSession → UserSession) : M unit :=
  modify (with_heap (alter f l)).

Definition push_listener (x : Listener) (s : UserSession) : UserSession :=
  mkUserSession (userId s) (socketId s) (data s) (timers s) (intervals s) (listeners s ++ [x]).

Definition push_timer (t : TimerId) (s : UserSession) : UserSession :=
  mkUserSession (userId s) (socketId s) (data s) (timers s ++ [t]) (intervals s) (listeners s).

(** *** [logMemoryUsage] (the heap figure of the process is not tracked) *)
Definition logMemoryUsage (context : string) : M unit := λ w,
  (Returned (),
   with_effect (LogMemoryUsage context (JsMap.size (userSessions w))
                               (length (messageHistory w))) w).

(** *** [performHeavyOperation]: 10000 temporary items, one clock read each *)
Definition performHeavyOperation : M unit :=
  n ← gets clockReads;
  modify (with_clockReads (n + Z.to_nat 10000));;
  logger_debug ("Heavy operation completed with " +:+ pretty (10000%Z) +:+ " items").

(** The state right after the constructor has run. *)
Definition initial : World :=
  mkWorld [] [] [] [] {[ 0 := mkInterval globalTimer 5000 ]} 1 [] 0 [].

(** *** [handleConnection] *)
Definition handleConnection (client : Socket) : M unit :=
  logger_log ("Client connected: " +:+ client_id client);;
  let largeBuffer := Buffer_fill "x" (Buffer_alloc (1024 * 1024)) in
  uid ← match auth_userId client with
        | Some u => if decide (u = "") then
                      now ← Date_now; mret ("anonymous_" +:+ pretty now)
                    else mret u
        | None => now ← Date_now; mret ("anonymous_" +:+ pretty now)
        end;
  session ← new_session (mkUserSession uid (client_id client) largeBuffer [] [] []);
  modify (with_userSessions (JsMap.set (client_id client) session));;
  let cb := heartbeatCallback (client_id client) in
  client_on (client_id client) (mkListener "pong" cb);;
  update_session session (push_listener (mkListener "pong" cb));;
  timer ← setInterval (connectionTimer (client_id client) session) 1000;
  update_session session (push_timer timer);;
  modify (with_globalEventHandlers (λ hs, hs ++ [globalHandler (client_id client)]));;
  logMemoryUsage "After connection".

(** *** [handleDisconnect] *)
Definition handleDisconnect (client : Socket) : M unit :=
  logger_log ("Client disconnected: " +:+ client_id client);;
  found ← gets (λ w, JsMap.get (client_id client) (userSessions w));
  match found with
  | Some l =>
      session ← deref l;
      match timers session with
      | t0 :: _ => clearInterval t0
      | [] => mret ()
      end
  | None => mret ()
  end;;
  logMemoryUsage "After disconnection".

(** *** [generateFakeUpdates] *)
Definition find_session (uid : string) (w : World) : option loc :=
  List.find (λ l, match heap w !! l with
                  | Some s => bool_decide (userId s = uid)
                  | None => false
                  end)
            (JsMap.values (userSessions w)).

Definition generateFakeUpdates (uid : string) : M (string * list Update) :=
  session ← gets (find_session uid);
  updates ← mapM (λ i, now ← Date_now;
                       mret (mkUpdate i ("Update " +:+ pretty (Z.of_nat i) +:+ " for " +:+ uid)
                                      session now))
                 (seq 0 50);
  mret (uid, updates).

(** *** [handleSubscribeUpdates] *)
Definition handleSubscribeUpdates (d : SubscribeData) (client : Socket)
    : M (option Subscribed) :=
  session ← gets (λ w, JsMap.get (client_id client) (userSessions w));
  match session with
  | None => mret None
  | Some _ =>
      setInterval (updateInterval (client_id client) (sub_userId d)) 2000;;
      mret (Some (mkSubscribed "subscribed" (sub_userId d)))
  end.

(** *** [handleHeavyComputation] *)

(** [data.iterations || 100] *)
Definition iterations_or_default (iterations : option Z) : Z :=
  match iterations with
  | Some n => if decide (n = 0%Z) then 100%Z else n
  | None => 100%Z
  end.

(** The closures pushed by [for (let i = 0; i < bound; i++)]: one per [i]. *)
Definition build_results (bound : Z) : list Z :=
  Z.of_nat <$> seq 0 (Z.to_nat bound).

Definition largeData : Buffer := Buffer_alloc (100 * 1024).

(** The body of one closure: it captured [largeData], [i] and [client]. *)
Definition run_result (client : Socket) (i : Z) : M unit :=
  let processed_length :=
    (buf_length largeData + N.of_nat (String.length ("iteration_" +:+ pretty i)))%N in
  now ← Date_now;
  client_emit (client_id client) (computation_result i processed_length now).

Definition handleHeavyComputation (iterations : option Z) (client : Socket)
    : M Computed :=
  let results := build_results (iterations_or_default iterations) in
  forEach (run_result client) results;;
  now ← Date_now;
  uid ← match iterations with
        | Some n => mret (pretty n)
        | None => throw (TypeError "Cannot read properties of undefined (reading 'toString')")
        end;
  modify (with_messageHistory (λ h, h ++ [mkHistoryEntry now
     ("Heavy computation completed: " +:+ pretty (Z.of_nat (length results)) +:+ " operations")
     uid]));;
  mret (mkComputed (Z.of_nat (length results))).

(** *** [handleGetMemoryStats] *)
Definition handleGetMemoryStats (memUsage : MemoryUsage) (client : Socket) : M Stats :=
  sessions ← gets (λ w, JsMap.size (userSessions w));
  history ← gets (λ w, length (messageHistory w));
  handlers ← gets (λ w, length (globalEventHandlers w));
  let stats := mkStats (mkMemoryUsage (round_MB (rss memUsage)) (round_MB (heapUsed memUsage))
                                      (round_MB (heapTotal memUsage)) (round_MB (external memUsage)))
                       sessions history handlers in
  client_emit (client_id client) (memory_stats stats);;
  mret stats.

(** *** [handleForceGC]: [gc] is [Some (before, after)], the heap used
    around the collection, when [global.gc] is exposed. *)
Definition handleForceGC (gc : option (Z * Z)) (client : Socket) : M unit :=
  match gc with
  | Some (before, after) =>
      client_emit (client_id client)
        (gc_result (round_MB before) (round_MB after) (round_MB (before - after)))
  | None =>
      client_emit (client_id client) (gc_error "GC not exposed. Start with --expose-gc flag")
  end.

(** *** Callbacks run by the event loop *)

(** The callback of the interval created in [handleConnection]. *)
Definition connectionTimer_callback (socket : string) (session : loc) : M unit :=
  now ← Date_now;
  s ← deref session;
  modify (with_messageHistory (λ h, h ++ [mkHistoryEntry now ("Ping from " +:+ socket) (userId s)]));;
  n ← gets (λ w, length (messageHistory w));
  if decide (10000 < Z.of_nat n)%Z
  then modify (with_messageHistory (slice_last (Z.to_nat 5000)))
  else mret ().

(** The callback of the interval created in [handleSubscribeUpdates]. *)
Definition updateInterval_callback (socket : string) (uid : string) : M unit :=
  updates ← generateFakeUpdates uid;
  client_emit socket (user_updates updates.1 updates.2).

Definition run_task (t : TimerTask) : M unit :=
  match t with
  | globalTimer => performHeavyOperation
  | connectionTimer socket session => connectionTimer_callback socket session
  | updateInterval socket uid => updateInterval_callback socket uid
  end.

(** An interval fires only while it is active. *)
Definition fire (t : TimerId) : M unit :=
  i ← gets (λ w, activeIntervals w !! t);
  match i with
  | Some i => run_task (task i)
  | None => mret ()
  end.

Definition run_callback (cb : Callback) : M unit :=
  match cb with
  | heartbeatCallback socket => now ← Date_now; client_emit socket (heartbeat now)
  end.

(** The socket receives [ev]: every listener registered for it runs. *)
Definition socket_receives (socket ev : string) : M unit :=
  ls ← gets socketListeners;
  forEach (λ sl : string * Listener,
             if decide (sl.1 = socket ∧ event sl.2 = ev)
             then run_callback (callback sl.2) else mret ())
          ls.

(** *** Operation sequences *)

Inductive Op :=
| connect (client : Socket)
| disconnect (client : Socket)
| subscribe_updates (d : SubscribeData) (client : Socket)
| heavy_computation (iterations : option Z) (client : Socket)
| get_memory_stats (memUsage : MemoryUsage) (client : Socket)
| force_gc (gc : option (Z * Z)) (client : Socket)
| timer_fires (t : TimerId)
| socket_event (client : Socket) (ev : string).

Definition exec {A} (m : M A) (w : World) : World := (m w).2.

Definition step (op : Op) (w : World) : World :=
  match op with
  | connect c => exec (handleConnection c) w
  | disconnect c => exec (handleDisconnect c) w
  | subscribe_updates d c => exec (handleSubscribeUpdates d c) w
  | heavy_computation n c => exec (handleHeavyComputation n c) w
  | get_memory_stats m c => exec (handleGetMemoryStats m c) w
  | force_gc gc c => exec (handleForceGC gc c) w
  | timer_fires t => exec (fire t) w
  | socket_event c ev => exec (socket_receives (client_id c) ev) w
  end.

Definition run (ops : list Op) (w : World) : World := foldl (λ w op, step op w) w ops.

End Gateway.

(** ** Observations on a run *)

(** The socket.io event under which a payload is emitted. *)
Definition event_name (p : Payload) : string :=
  match p with
  | heartbeat _ => "heartbeat"
  | computation_result _ _ _ => "computation_result"
  | user_updates _ _ => "user_updates"
  | memory_stats _ => "memory_stats"
  | gc_result _ _ _ | gc_error _ => "gc_result"
  end.

(** The effects [m] performs when run from [w]. *)
Definition performed {A} (m : M A) (w : World) : list Effect :=
  drop (length (trace w)) (trace (m w).2).

(** [keeps proj m]: running [m] leaves the component [proj] of the world as
    it was, whether [m] returns or throws. *)
Definition keeps {A B} (proj : World → B) (m : M A) : Prop :=
  ∀ w, proj (m w).2 = proj w.

(** The [activeSessions] figure a [get_memory_stats] call would report. *)
Definition reported_activeSessions (w : World) (memUsage : MemoryUsage) (c : Socket) : nat :=
  match (handleGetMemoryStats memUsage c w).1 with
  | Returned stats => activeSessions stats
  | Thrown _ => 0
  end.

Record ComputationResult := mkComputationResult {
  cr_socket : string;
  cr_iteration : Z;
  cr_size : N;
  cr_timestamp : Z
}.

(** The [computation_result] events among a list of effects, in order. *)
Definition computation_results (effects : list Effect) : list ComputationResult :=
  omap (λ e, match e with
             | Emit s (computation_result i sz t) => Some (mkComputationResult s i sz t)
             | _ => None
             end) effects.

(** The events the closures for [l] emit when the clock has been read [k]
    times before. *)
Fixpoint result_events (clock : nat → Z) (c : Socket) (k : nat) (l : list Z) : list Effect :=
  match l with
  | [] => []
  | i :: l' =>
      Emit (client_id c)
           (computation_result i
              (buf_length largeData + N.of_nat (String.length ("iteration_" +:+ pretty i)))%N
              (clock k))
      :: result_events clock c (S k) l'
  end.

(** The [updates] array for [uid] when the search found [session] and the
    clock has been read [k] times before. *)
Fixpoint updates_from (clock : nat → Z) (uid : string) (session : option loc)
    (k : nat) (l : list nat) : list Update :=
  match l with
  | [] => []
  | i :: l' =>
      mkUpdate i ("Update " +:+ pretty (Z.of_nat i) +:+ " for " +:+ uid) session (clock k)
      :: updates_from clock uid session (S k) l'
  end.

(** No session object records an interval in its [intervals] array. *)
Definition untracked (w : World) : Prop :=
  Forall (λ s, intervals s = []) (heap w).

(** A clock that advances by one at each reading, and a client. *)
Definition tick_clock (n : nat) : Z := Z.of_nat n.
Definition alice : Socket := mkSocket "a" (Some "u1").

(** ** Statements about the handlers, as the specification words them *)

(** What a call [heavy_computation {iterations}] is said to do: return
    [{processed: n}], and deliver exactly [n] [computation_result] events
    (and nothing else) to the caller, with iterations [0 .. n-1]. *)
Definition returns_processed (clock : nat → Z) (n : Z) (iterations : option Z)
    (c : Socket) (w : World) : Prop :=
  (handleHeavyComputation clock iterations c w).1 = Returned (mkComputed n).

Definition delivers_results (clock : nat → Z) (n : nat) (iterations : option Z)
    (c : Socket) (w : World) : Prop :=
  let effects := performed (handleHeavyComputation clock iterations c) w in
  length effects = n
  ∧ length (computation_results effects) = n
  ∧ Forall (λ r, cr_socket r = client_id c) (computation_results effects)
  ∧ cr_iteration <$> computation_results effects = Z.of_nat <$> seq 0 n.



(** The statement for a payload whose [iterations] is 0 or missing. *)
Definition computes_default (clock : nat → Z) (iterations : option Z)
    (c : Socket) (w : World) : Prop :=
  iterations = Some 0%Z ∨ iterations = None →
  returns_processed clock 100 iterations c w ∧ delivers_results clock 100 iterations c w.


(** The statement for an operation on a connection without a session: it
    is a no-op. It creates no timer, delivers no event (performs no effect
    at all), appends nothing to the history and mutates none of the shared
    collections. *)
Definition is_noop {A} (m : M A) (w : World) : Prop :=
  let w' := (m w).2 in
  activeIntervals w' = activeIntervals w
  ∧ performed m w = []
  ∧ messageHistory w' = messageHistory w
  ∧ userSessions w' = userSessions w
  ∧ heap w' = heap w
  ∧ globalEventHandlers w' = globalEventHandlers w
  ∧ socketListeners w' = socketListeners w.

Definition no_session_noop (clock : nat → Z) (d : SubscribeData) (iterations : option Z)
    (c : Socket) (w : World) : Prop :=
  JsMap.get (client_id c) (userSessions w) = None →
  is_noop (handleSubscribeUpdates d c) w
  ∧ is_noop (handleHeavyComputation clock iterations c) w.

(** ** Further observations *)

(** The [userId] that [handleConnection] gives the session of [c] when run
    from [w]: the one of the handshake, or a synthesized one when it is
    missing or empty. *)
Definition connection_userId (clock : nat → Z) (c : Socket) (w : World) : string :=
  match auth_userId c with
  | Some u => if decide (u = "") then "anonymous_" +:+ pretty (clock (clockReads w)) else u
  | None => "anonymous_" +:+ pretty (clock (clockReads w))
  end.

(** The session object [handleConnection] creates for [c] when run from [w]. *)
Definition connection_session (clock : nat → Z) (c : Socket) (w : World) : UserSession :=
  mkUserSession (connection_userId clock c w) (client_id c)
                (Buffer_fill "x" (Buffer_alloc (1024 * 1024)))
                [nextTimer w] []
                [mkListener "pong" (heartbeatCallback (client_id c))].

(** The ids of the clients that connect during [ops], in order. *)
Definition connected_ids (ops : list Op) : list string :=
  omap (λ op, match op with connect c => Some (client_id c) | _ => None end) ops.

(** The [heartbeat] events among a list of effects. *)
Definition heartbeats (effects : list Effect) : list (string * Z) :=
  omap (λ e, match e with Emit s (heartbeat t) => Some (s, t) | _ => None end) effects.

(** The invariant of the reachable states. Handles are issued in
    increasing order; the interval of the constructor has handle 0; every
    session object holds exactly one timer, the handle of its own connection
    timer, no interval and its pong listener; the map refers to session
    objects of the store under their own socket id, and holds no dangling
    reference. *)
Record well_formed (w : World) : Prop := mk_well_formed {
  wf_fresh : ∀ t i, activeIntervals w !! t = Some i → t < nextTimer w;
  wf_global : activeIntervals w !! 0 = Some (mkInterval globalTimer 5000);
  wf_session : ∀ l s, heap w !! l = Some s →
    ∃ t, timers s = [t] ∧ 0 < t < nextTimer w ∧ intervals s = []
         ∧ listeners s = [mkListener "pong" (heartbeatCallback (socketId s))]
         ∧ ∀ i, activeIntervals w !! t = Some i →
                i = mkInterval (connectionTimer (socketId s) l) 1000;
  wf_map : ∀ k l, JsMap.get k (userSessions w) = Some l →
    ∃ s, heap w !! l = Some s ∧ socketId s = k;
  wf_values : ∀ l, l ∈ JsMap.values (userSessions w) → l < length (heap w)
}.

(** What one operation can do to the session objects, the session map and
    the table of intervals: nothing, a registration, the clearing of the
    first timer of a registered session, or the start of an update
    interval. *)
Inductive resource_step (w w' : World) : Prop :=
| rs_same :
    heap w' = heap w → userSessions w' = userSessions w →
    activeIntervals w' = activeIntervals w → nextTimer w' = nextTimer w →
    resource_step w w'
| rs_connect (c : Socket) (s : UserSession) :
    socketId s = client_id c → timers s = [nextTimer w] → intervals s = [] →
    listeners s = [mkListener "pong" (heartbeatCallback (client_id c))] →
    heap w' = heap w ++ [s] →
    userSessions w' = JsMap.set (client_id c) (length (heap w)) (userSessions w) →
    activeIntervals w'
    = <[nextTimer w := mkInterval (connectionTimer (client_id c) (length (heap w))) 1000]>
        (activeIntervals w) →
    nextTimer w' = S (nextTimer w) →
    resource_step w w'
| rs_clear (k : string) (l : loc) (s : UserSession) (t0 : TimerId) :
    JsMap.get k (userSessions w) = Some l → heap w !! l = Some s →
    head (timers s) = Some t0 →
    heap w' = heap w → userSessions w' = userSessions w →
    activeIntervals w' = delete t0 (activeIntervals w) → nextTimer w' = nextTimer w →
    resource_step w w'
| rs_subscribe (socket uid : string) :
    heap w' = heap w → userSessions w' = userSessions w →
    activeIntervals w'
    = <[nextTimer w := mkInterval (updateInterval socket uid) 2000]> (activeIntervals w) →
    nextTimer w' = S (nextTimer w) →
    resource_step w w'.

(** [orphaned w l t i]: the session object [l] is no longer referred to by
    the session map, while its connection timer [t] is still active. *)
Definition orphaned (w : World) (l : loc) (t : TimerId) (i : Interval) : Prop :=
  (l ∉ JsMap.values (userSessions w))
  ∧ l < length (heap w)
  ∧ activeIntervals w !! t = Some i
  ∧ ∃ socket, task i = connectionTimer socket l.

(** ** Reasoning about handlers *)

Lemma keeps_ret {A B} (proj : World → B) (a : A) : keeps proj (mret a).
Proof. by intros w. Qed.

Lemma keeps_throw {A B} (proj : World → B) (e : Exn) : keeps proj (throw (A:=A) e).
Proof. by intros w. Qed.

Lemma keeps_gets {A B} (proj : World → B) (f : World → A) : keeps proj (gets f).
Proof. by intros w. Qed.

Lemma keeps_bind {A A' B} (proj : World → B) (m : M A) (f : A → M A') :
  keeps proj m → (∀ a, keeps proj (f a)) → keeps proj (m ≫= f).
Proof.
  intros Hm Hf w. unfold mbind, M_bind. specialize (Hm w).
  destruct (m w) as [[a|e] w']; simpl in *; [by rewrite Hf | done].
Qed.

Lemma keeps_forEach {A B} (proj : World → B) (f : A → M unit) (l : list A) :
  (∀ a, keeps proj (f a)) → keeps proj (forEach f l).
Proof.
  intros Hf. induction l as [|a l IH]; simpl.
  - apply keeps_ret.
  - apply keeps_bind; [apply Hf | intros _; apply IH].
Qed.

Lemma keeps_mapM {A A' B} (proj : World → B) (f : A → M A') (l : list A) :
  (∀ a, keeps proj (f a)) → keeps proj (mapM f l).
Proof.
  intros Hf. induction l as [|a l IH]; simpl.
  - apply keeps_ret.
  - apply keeps_bind; [apply Hf | intros b].
    apply keeps_bind; [apply IH | intros bs; apply keeps_ret].
Qed.

Lemma keeps_modify {B} (proj : World → B) (f : World → World) :
  (∀ w, proj (f w) = proj w) → keeps proj (modify f).
Proof. intros Hf w. apply Hf. Qed.

(** One step of a frame proof: split a bind, enter a branch, or close a
    primitive that does not write the component. *)
Ltac keeps_step :=
  match goal with
  | |- keeps _ (mbind _ _) => apply keeps_bind; [|intros ?]
  | |- keeps _ (mret _) => apply keeps_ret
  | |- keeps _ (throw _) => apply keeps_throw
  | |- keeps _ (gets _) => apply keeps_gets
  | |- keeps _ (forEach _ _) => apply keeps_forEach; intros ?
  | |- keeps _ (mapM _ _) => apply keeps_mapM; intros ?
  | |- keeps _ (modify _) => apply keeps_modify; intros ?; reflexivity
  | |- keeps _ (match ?x with _ => _ end) => destruct x
  | |- keeps _ (if ?x then _ else _) => destruct x
  | |- keeps _ _ => by (intros ?; simpl; repeat case_match)
  end.

Ltac unfold_primitives :=
  unfold logger_log, logger_debug, client_emit, client_on, setInterval,
    clearInterval, new_session, deref, update_session, logMemoryUsage, Date_now.

Ltac keeps_auto := unfold_primitives; repeat keeps_step.

(** ** Facts about the insertion-ordered map *)

Module JsMapFacts.
Section Facts.
Context {V : Type}.
Implicit Types (k : string) (v : V) (m : list (string * V)).

Lemma get_set_eq k v m : JsMap.get k (JsMap.set k v m) = Some v.
Proof.
  induction m as [|[k' v'] m IH]; simpl.
  - by rewrite decide_True.
  - destruct (decide (k' = k)) as [->|Hne]; simpl.
    + by rewrite decide_True.
    + by rewrite decide_False.
Qed.

Lemma get_set_ne k k' v m : k ≠ k' → JsMap.get k' (JsMap.set k v m) = JsMap.get k' m.
Proof.
  intros Hne. induction m as [|[k0 v0] m IH]; simpl.
  - by rewrite decide_False.
  - destruct (decide (k0 = k)) as [->|Hk0]; simpl.
    + by rewrite !decide_False.
    + by rewrite IH.
Qed.

Lemma get_Some_keys k m : is_Some (JsMap.get k m) ↔ k ∈ JsMap.keys m.
Proof.
  unfold JsMap.keys. induction m as [|[k' v'] m IH]; simpl.
  - split; [intros [? ?]; discriminate | by intros ?%elem_of_nil].
  - destruct (decide (k' = k)) as [->|Hne].
    + split; [intros _; left | by eauto].
    + rewrite IH. split; [by right | intros [?|?]%elem_of_cons; [congruence | done]].
Qed.

(** [set] on a present key overwrites in place. *)
Lemma size_set_present k v m :
  is_Some (JsMap.get k m) → JsMap.size (JsMap.set k v m) = JsMap.size m.
Proof.
  unfold JsMap.size. induction m as [|[k' v'] m IH]; simpl.
  - intros [? ?]; discriminate.
  - destruct (decide (k' = k)); simpl; [done | intros H; by rewrite IH].
Qed.

(** [set] on an absent key appends one entry. *)
Lemma size_set_absent k v m :
  JsMap.get k m = None → JsMap.size (JsMap.set k v m) = S (JsMap.size m).
Proof.
  unfold JsMap.size. induction m as [|[k' v'] m IH]; simpl; [done|].
  destruct (decide (k' = k)); simpl; [discriminate | intros H; by rewrite IH].
Qed.

Lemma size_set_le k v m : (JsMap.size m ≤ JsMap.size (JsMap.set k v m))%nat.
Proof.
  destruct (JsMap.get k m) eqn:E.
  - rewrite size_set_present; [lia | by rewrite E].
  - rewrite size_set_absent; [lia | done].
Qed.

Lemma get_set_is_Some k k' v m :
  is_Some (JsMap.get k' m) → is_Some (JsMap.get k' (JsMap.set k v m)).
Proof.
  intros H. destruct (decide (k = k')) as [->|Hne].
  - rewrite get_set_eq. by eexists.
  - by rewrite get_set_ne.
Qed.

Lemma keys_set_NoDup k v m : NoDup (JsMap.keys m) → NoDup (JsMap.keys (JsMap.set k v m)).
Proof.
  unfold JsMap.keys. induction m as [|[k' v'] m IH]; simpl.
  - intros _. apply NoDup_singleton.
  - intros [Hnotin Hnd]%NoDup_cons. destruct (decide (k' = k)) as [->|Hne]; simpl.
    + by apply NoDup_cons.
    + apply NoDup_cons. split; [|by apply IH].
      intros Hin. apply Hnotin.
      apply (get_Some_keys k' m). apply (get_Some_keys k' (JsMap.set k v m)) in Hin.
      by rewrite get_set_ne in Hin.
Qed.

End Facts.
End JsMapFacts.

(** ** Which handler writes what *)

Section Frames.
Variable clock : nat → Z.

(** Only [handleConnection] writes the session map and the session objects. *)
Lemma handleDisconnect_keeps_userSessions c : keeps userSessions (handleDisconnect c).
Proof. unfold handleDisconnect. keeps_auto. Qed.

Lemma handleDisconnect_keeps_heap c : keeps heap (handleDisconnect c).
Proof. unfold handleDisconnect. keeps_auto. Qed.

Lemma handleDisconnect_keeps_globalEventHandlers c :
  keeps globalEventHandlers (handleDisconnect c).
Proof. unfold handleDisconnect. keeps_auto. Qed.

Lemma handleDisconnect_keeps_socketListeners c :
  keeps socketListeners (handleDisconnect c).
Proof. unfold handleDisconnect. keeps_auto. Qed.

Lemma handleDisconnect_keeps_messageHistory c :
  keeps messageHistory (handleDisconnect c).
Proof. unfold handleDisconnect. keeps_auto. Qed.

Lemma handleSubscribeUpdates_keeps_userSessions d c :
  keeps userSessions (handleSubscribeUpdates d c).
Proof. unfold handleSubscribeUpdates. keeps_auto. Qed.

Lemma handleSubscribeUpdates_keeps_heap d c : keeps heap (handleSubscribeUpdates d c).
Proof. unfold handleSubscribeUpdates. keeps_auto. Qed.

Lemma handleHeavyComputation_keeps_userSessions n c :
  keeps userSessions (handleHeavyComputation clock n c).
Proof. unfold handleHeavyComputation, run_result. keeps_auto. Qed.

Lemma handleHeavyComputation_keeps_heap n c :
  keeps heap (handleHeavyComputation clock n c).
Proof. unfold handleHeavyComputation, run_result. keeps_auto. Qed.

Lemma handleGetMemoryStats_keeps_userSessions m c :
  keeps userSessions (handleGetMemoryStats m c).
Proof. unfold handleGetMemoryStats. keeps_auto. Qed.

Lemma handleGetMemoryStats_keeps_heap m c : keeps heap (handleGetMemoryStats m c).
Proof. unfold handleGetMemoryStats. keeps_auto. Qed.

Lemma handleForceGC_keeps_userSessions gc c : keeps userSessions (handleForceGC gc c).
Proof. unfold handleForceGC. keeps_auto. Qed.

Lemma handleForceGC_keeps_heap gc c : keeps heap (handleForceGC gc c).
Proof. unfold handleForceGC. keeps_auto. Qed.

Lemma fire_keeps_userSessions t : keeps userSessions (fire clock t).
Proof.
  unfold fire, run_task, performHeavyOperation, connectionTimer_callback,
    updateInterval_callback, generateFakeUpdates.
  keeps_auto.
Qed.

Lemma fire_keeps_heap t : keeps heap (fire clock t).
Proof.
  unfold fire, run_task, performHeavyOperation, connectionTimer_callback,
    updateInterval_callback, generateFakeUpdates.
  keeps_auto.
Qed.

Lemma socket_receives_keeps_userSessions s ev :
  keeps userSessions (socket_receives clock s ev).
Proof. unfold socket_receives, run_callback. keeps_auto. Qed.

Lemma socket_receives_keeps_heap s ev : keeps heap (socket_receives clock s ev).
Proof. unfold socket_receives, run_callback. keeps_auto. Qed.

(** What [handleConnection] does to the session map: one [set], to a fresh
    reference. *)
Lemma handleConnection_userSessions c w :
  userSessions (exec (handleConnection clock c) w)
  = JsMap.set (client_id c) (length (heap w)) (userSessions w).
Proof.
  unfold handleConnection, exec.
  destruct (auth_userId c) as [u|]; [destruct (decide (u = ""))|]; reflexivity.
Qed.

Lemma handleConnection_returns c w : (handleConnection clock c w).1 = Returned ().
Proof.
  unfold handleConnection.
  destruct (auth_userId c) as [u|]; [destruct (decide (u = ""))|]; reflexivity.
Qed.

(** Every operation other than [connect] leaves the session map alone. *)
Lemma step_userSessions op w :
  userSessions (step clock op w) = userSessions w
  ∨ ∃ c, op = connect c ∧
         userSessions (step clock op w)
         = JsMap.set (client_id c) (length (heap w)) (userSessions w).
Proof.
  destruct op; unfold step, exec.
  - right. eexists; split; [done|]. apply handleConnection_userSessions.
  - left. apply handleDisconnect_keeps_userSessions.
  - left. apply handleSubscribeUpdates_keeps_userSessions.
  - left. apply handleHeavyComputation_keeps_userSessions.
  - left. apply handleGetMemoryStats_keeps_userSessions.
  - left. apply handleForceGC_keeps_userSessions.
  - left. apply fire_keeps_userSessions.
  - left. apply socket_receives_keeps_userSessions.
Qed.

End Frames.

(** ** The session map never shrinks *)

Lemma reported_activeSessions_size w memUsage c :
  reported_activeSessions w memUsage c = JsMap.size (userSessions w).
Proof. reflexivity. Qed.

Section Monotone.
Variable clock : nat → Z.

Lemma step_keeps_keys op w k :
  is_Some (JsMap.get k (userSessions w)) →
  is_Some (JsMap.get k (userSessions (step clock op w))).
Proof.
  intros Hk. destruct (step_userSessions clock op w) as [->|(c & _ & ->)]; [done|].
  by apply JsMapFacts.get_set_is_Some.
Qed.

Lemma step_size_le op w :
  JsMap.size (userSessions w) ≤ JsMap.size (userSessions (step clock op w)).
Proof.
  destruct (step_userSessions clock op w) as [->|(c & _ & ->)]; [done|].
  apply JsMapFacts.size_set_le.
Qed.

Lemma run_nil w : run clock [] w = w.
Proof. reflexivity. Qed.

Lemma run_cons op ops w : run clock (op :: ops) w = run clock ops (step clock op w).
Proof. reflexivity. Qed.

Lemma run_app ops ops' w : run clock (ops ++ ops') w = run clock ops' (run clock ops w).
Proof. unfold run. apply foldl_app. Qed.

Lemma run_keeps_keys ops w k :
  is_Some (JsMap.get k (userSessions w)) →
  is_Some (JsMap.get k (userSessions (run clock ops w))).
Proof.
  revert w. induction ops as [|op ops IH]; intros w Hk; [done|].
  simpl. apply IH. by apply step_keeps_keys.
Qed.

Lemma run_size_le ops w :
  JsMap.size (userSessions w) ≤ JsMap.size (userSessions (run clock ops w)).
Proof.
  revert w. induction ops as [|op ops IH]; intros w; [done|].
  simpl. etrans; [apply (step_size_le op)|apply IH].
Qed.

(** C9. Over any sequence of gateway operations (connect, disconnect,
    subscribe_updates, heavy_computation, get_memory_stats, force_gc, and
    the timer and socket callbacks the event loop runs in between), no key
    ever leaves [userSessions]: a key present after a prefix [ops] of the
    sequence is still present after any continuation [ops'], and the
    [activeSessions] count reported by get_memory_stats after the
    continuation is at least the count reported after the prefix. *)
Theorem userSessions_never_shrinks :
  ∀ (ops ops' : list Op) (w : World),
    (∀ k, is_Some (JsMap.get k (userSessions (run clock ops w))) →
          is_Some (JsMap.get k (userSessions (run clock (ops ++ ops') w))))
    ∧ (∀ memUsage c memUsage' c',
         reported_activeSessions (run clock ops w) memUsage c
         ≤ reported_activeSessions (run clock (ops ++ ops') w) memUsage' c').
Proof.
  intros ops ops' w. rewrite run_app. split.
  - intros k. apply run_keeps_keys.
  - intros. rewrite !reported_activeSessions_size. apply run_size_le.
Qed.

End Monotone.

(** ** heavy_computation *)

Section HeavyComputation.
Variable clock : nat → Z.

Lemma forEach_run_result c l w :
  forEach (run_result clock c) l w
  = (Returned (),
     mkWorld (heap w) (userSessions w) (globalEventHandlers w) (messageHistory w)
             (activeIntervals w) (nextTimer w) (socketListeners w)
             (clockReads w + length l)
             (trace w ++ result_events clock c (clockReads w) l)).
Proof.
  revert w. induction l as [|i l IH]; intros w.
  - destruct w; simpl. unfold mret, M_ret. do 2 f_equal; [lia | by rewrite app_nil_r].
  - simpl. unfold mbind at 1, M_bind. unfold run_result at 1. simpl.
    rewrite IH. simpl. do 2 f_equal; [lia | by rewrite <- app_assoc].
Qed.

(** The handler in closed form. *)
Lemma handleHeavyComputation_eq iterations c w :
  handleHeavyComputation clock iterations c w
  = let results := build_results (iterations_or_default iterations) in
    let w1 := mkWorld (heap w) (userSessions w) (globalEventHandlers w) (messageHistory w)
                      (activeIntervals w) (nextTimer w) (socketListeners w)
                      (S (clockReads w + length results))
                      (trace w ++ result_events clock c (clockReads w) results) in
    match iterations with
    | Some n =>
        (Returned (mkComputed (Z.of_nat (length results))),
         with_messageHistory
           (λ h, h ++ [mkHistoryEntry (clock (clockReads w + length results))
                         ("Heavy computation completed: "
                          +:+ pretty (Z.of_nat (length results)) +:+ " operations")
                         (pretty n)])
           w1)
    | None =>
        (Thrown (TypeError "Cannot read properties of undefined (reading 'toString')"), w1)
    end.
Proof.
  unfold handleHeavyComputation.
  generalize (build_results (iterations_or_default iterations)) as results.
  intros results. unfold mbind at 1, M_bind. rewrite forEach_run_result.
  by destruct iterations.
Qed.

Ltac heavy_unfold :=
  unfold handleHeavyComputation; unfold mbind at 1, M_bind;
  rewrite forEach_run_result.

Lemma handleHeavyComputation_trace it c w :
  trace (handleHeavyComputation clock it c w).2
  = trace w ++ result_events clock c (clockReads w) (build_results (iterations_or_default it)).
Proof. heavy_unfold. by destruct it. Qed.

Lemma handleHeavyComputation_performed it c w :
  performed (handleHeavyComputation clock it c) w
  = result_events clock c (clockReads w) (build_results (iterations_or_default it)).
Proof. unfold performed. by rewrite handleHeavyComputation_trace, drop_app_length. Qed.

Lemma handleHeavyComputation_Some n c w :
  (handleHeavyComputation clock (Some n) c w).1
  = Returned (mkComputed (Z.of_nat (Z.to_nat (iterations_or_default (Some n))))).
Proof. heavy_unfold. unfold build_results. by rewrite length_fmap, length_seq. Qed.

Lemma handleHeavyComputation_None c w :
  (handleHeavyComputation clock None c w).1
  = Thrown (TypeError "Cannot read properties of undefined (reading 'toString')").
Proof. by heavy_unfold. Qed.

Lemma handleHeavyComputation_history_Some n c w :
  ∃ entry, messageHistory (handleHeavyComputation clock (Some n) c w).2
           = messageHistory w ++ [entry].
Proof. heavy_unfold. by eexists. Qed.

Lemma handleHeavyComputation_history_None c w :
  messageHistory (handleHeavyComputation clock None c w).2 = messageHistory w.
Proof. by heavy_unfold. Qed.

Lemma result_events_length c k l : length (result_events clock c k l) = length l.
Proof. revert k. induction l as [|i l IH]; intros k; simpl; [done | by rewrite IH]. Qed.

Lemma result_events_results c k l :
  computation_results (result_events clock c k l)
  = zip_with (λ i t, mkComputationResult (client_id c) i
                       (buf_length largeData
                        + N.of_nat (String.length ("iteration_" +:+ pretty i)))%N t)
             l (clock <$> seq k (length l)).
Proof.
  revert k. induction l as [|i l IH]; intros k; [done|].
  simpl. f_equal. apply IH.
Qed.

Lemma result_events_iterations c k l :
  cr_iteration <$> computation_results (result_events clock c k l) = l.
Proof.
  revert k. induction l as [|i l IH]; intros k; [done|].
  simpl. f_equal. apply IH.
Qed.


Lemma result_events_sockets c k l :
  Forall (λ r, cr_socket r = client_id c) (computation_results (result_events clock c k l)).
Proof.
  revert k. induction l as [|i l IH]; intros k; simpl; [done|].
  constructor; [done | apply IH].
Qed.


End HeavyComputation.

Section HeavyComputationResults.
Variable clock : nat → Z.

Lemma delivers_results_default iterations c w :
  delivers_results clock (Z.to_nat (iterations_or_default iterations)) iterations c w.
Proof.
  unfold delivers_results. rewrite handleHeavyComputation_performed.
  rewrite result_events_iterations.
  split_and!.
  - rewrite result_events_length. unfold build_results. by rewrite length_fmap, length_seq.
  - rewrite <- (length_fmap cr_iteration), result_events_iterations.
    unfold build_results. by rewrite length_fmap, length_seq.
  - apply result_events_sockets.
  - done.
Qed.


(** With [iterations] 0 the handler performs the default of 100 units of
    work: it emits exactly 100 computation_result events and returns
    [{processed: 100}]. When the field is missing, the same 100
    computation_result events are emitted. *)
Lemma heavy_computation_default :
  ∀ (c : Socket) (w : World),
    (returns_processed clock 100 (Some 0%Z) c w
     ∧ delivers_results clock 100 (Some 0%Z) c w)
    ∧ delivers_results clock 100 None c w.
Proof.
  intros c w. split_and!.
  - unfold returns_processed. by rewrite handleHeavyComputation_Some.
  - apply (delivers_results_default (Some 0%Z)).
  - apply (delivers_results_default None).
Qed.

(** C10 (the code at a payload without [iterations]). The default of 100
    applies to the loop bound, so the 100 computation_result events are
    emitted, but [data.iterations.toString()] then throws a [TypeError] on
    the missing value: the call returns no [{processed: 100}] and appends
    nothing to the history. With [iterations] 0 the same handler returns
    [{processed: 100}]. *)
Theorem heavy_computation_missing_throws :
  ∀ (c : Socket) (w : World),
    (handleHeavyComputation clock None c w).1
    = Thrown (TypeError "Cannot read properties of undefined (reading 'toString')")
    ∧ delivers_results clock 100 None c w
    ∧ messageHistory (handleHeavyComputation clock None c w).2 = messageHistory w
    ∧ returns_processed clock 100 (Some 0%Z) c w.
Proof.
  intros c w. split_and!.
  - apply handleHeavyComputation_None.
  - apply (delivers_results_default None).
  - apply handleHeavyComputation_history_None.
  - unfold returns_processed. by rewrite handleHeavyComputation_Some.
Qed.

End HeavyComputationResults.



(** With [iterations] missing the handler throws at
    [data.iterations.toString()] and returns no [{processed: 100}]. *)
Lemma heavy_computation_missing_counterexample :
  ¬ computes_default tick_clock None alice initial.
Proof.
  intros H. destruct H as [Hret _]; [by right|].
  unfold returns_processed in Hret.
  rewrite handleHeavyComputation_None in Hret. discriminate.
Qed.

(** ** connect on a connection id that is already registered *)

Section Connection.
Variable clock : nat → Z.

Lemma handleConnection_heap c w :
  ∃ uid, heap (exec (handleConnection clock c) w)
         = heap w ++ [mkUserSession uid (client_id c)
                        (Buffer_fill "x" (Buffer_alloc (1024 * 1024)))
                        [nextTimer w] []
                        [mkListener "pong" (heartbeatCallback (client_id c))]].
Proof.
  unfold handleConnection, exec.
  destruct (auth_userId c) as [u|]; [destruct (decide (u = ""))|]; simpl; eexists.
  all: rewrite <- (Nat.add_0_r (length (heap w))).
  all: rewrite !alter_app_r; reflexivity.
Qed.



End Connection.



(** ** Operations on a connection that has no session *)

Section NoSession.
Variable clock : nat → Z.

(** [handleHeavyComputation] never reads the session map: changing the map
    changes neither its outcome nor anything else it does. *)
Lemma handleHeavyComputation_ignores_userSessions iterations c w f :
  handleHeavyComputation clock iterations c (with_userSessions f w)
  = ((handleHeavyComputation clock iterations c w).1,
     with_userSessions f (handleHeavyComputation clock iterations c w).2).
Proof.
  rewrite !handleHeavyComputation_eq.
  generalize (build_results (iterations_or_default iterations)) as results.
  intros results. by destruct iterations.
Qed.

(** C8 (amended). subscribe_updates invoked for a connectionId with no
    session in the registry returns an empty result and changes nothing: it
    creates no timer, delivers no events, appends nothing to the history and
    mutates no shared state. heavy_computation does not consult the
    registry at all: it runs the same way whether or not the caller has a
    session. *)
Theorem subscribe_without_session_noop :
  ∀ (d : SubscribeData) (iterations : option Z) (c : Socket) (w : World),
    JsMap.get (client_id c) (userSessions w) = None →
    handleSubscribeUpdates d c w = (Returned None, w)
    ∧ is_noop (handleSubscribeUpdates d c) w
    ∧ ∀ f, handleHeavyComputation clock iterations c (with_userSessions f w)
           = ((handleHeavyComputation clock iterations c w).1,
              with_userSessions f (handleHeavyComputation clock iterations c w).2).
Proof.
  intros d iterations c w Hnone.
  assert (Heq : handleSubscribeUpdates d c w = (Returned None, w)).
  { unfold handleSubscribeUpdates, mbind, M_bind, gets. by rewrite Hnone. }
  split_and!; [done | | intros f; apply handleHeavyComputation_ignores_userSessions].
  unfold is_noop, performed. rewrite Heq. simpl.
  split_and!; try done. by rewrite drop_all.
Qed.

End NoSession.

Lemma subscribe_without_session_noop_witness :
  JsMap.get (client_id alice) (userSessions initial) = None
  ∧ handleSubscribeUpdates (mkSubscribeData "u1") alice initial = (Returned None, initial).
Proof.
  split; [reflexivity|].
  exact (proj1 (subscribe_without_session_noop tick_clock (mkSubscribeData "u1") (Some 1%Z)
                  alice initial eq_refl)).
Defined.

(** heavy_computation from a client without a session delivers its events
    all the same. *)
Lemma heavy_computation_without_session_counterexample :
  ¬ no_session_noop tick_clock (mkSubscribeData "u1") (Some 1%Z) alice initial.
Proof.
  intros H. destruct H as [_ (_ & Hperformed & _)]; [reflexivity|].
  rewrite handleHeavyComputation_performed in Hperformed. discriminate.
Qed.

(** ** disconnect *)

Section Disconnect.
Variable clock : nat → Z.

(** Whatever the state, [handleDisconnect] leaves the session map, the
    session objects, the global handlers and the socket listeners as they
    were. *)
Lemma handleDisconnect_leaves_registrations c w :
  let w' := exec (handleDisconnect c) w in
  userSessions w' = userSessions w
  ∧ heap w' = heap w
  ∧ globalEventHandlers w' = globalEventHandlers w
  ∧ socketListeners w' = socketListeners w.
Proof.
  unfold exec. split_and!.
  - apply handleDisconnect_keeps_userSessions.
  - apply handleDisconnect_keeps_heap.
  - apply handleDisconnect_keeps_globalEventHandlers.
  - apply handleDisconnect_keeps_socketListeners.
Qed.

(** At most the first timer of the session is cleared. *)
Lemma handleDisconnect_activeIntervals c w :
  activeIntervals (exec (handleDisconnect c) w) = activeIntervals w
  ∨ ∃ l s t0, JsMap.get (client_id c) (userSessions w) = Some l
              ∧ heap w !! l = Some s
              ∧ head (timers s) = Some t0
              ∧ activeIntervals (exec (handleDisconnect c) w) = delete t0 (activeIntervals w).
Proof.
  unfold handleDisconnect, exec, mbind, M_bind, gets, logger_log, modify, deref,
    logMemoryUsage, clearInterval. simpl.
  destruct (JsMap.get (client_id c) (userSessions w)) as [l|] eqn:Hl; simpl; [|by left].
  destruct (heap w !! l) as [s|] eqn:Hs; simpl; [|by left].
  destruct (timers s) as [|t0 ts] eqn:Ht; simpl; [by left|].
  right. exists l, s, t0. by rewrite Ht.
Qed.

(** C1 (the code at connect, disconnect). After a client connected and
    disconnected, its session is still found in [userSessions], its
    broadcast handler is still in [globalEventHandlers], and its pong
    listener is still registered and still delivers heartbeats. *)
Theorem disconnect_leaves_session_registered :
  let w := run clock [connect alice; disconnect alice] initial in
  JsMap.get "a" (userSessions w) = Some 0
  ∧ globalEventHandlers w = [globalHandler "a"]
  ∧ socketListeners w = [("a", mkListener "pong" (heartbeatCallback "a"))]
  ∧ performed (socket_receives clock "a" "pong") w = [Emit "a" (heartbeat (clock 0))].
Proof. cbv zeta. split_and!; vm_compute; reflexivity. Qed.

(** C5 (the code at connect, disconnect, disconnect). The second
    disconnect still finds the session and calls [clearInterval] again on
    the handle that the first disconnect already cleared. *)
Theorem second_disconnect_clears_again :
  let w := run clock [connect alice; disconnect alice] initial in
  ClearInterval 1 ∈ trace w
  ∧ JsMap.get "a" (userSessions w) = Some 0
  ∧ performed (handleDisconnect alice) w
    = [LoggerLog "Client disconnected: a"; ClearInterval 1;
       LogMemoryUsage "After disconnection" 1 0].
Proof.
  cbv zeta. split_and!; [|vm_compute; reflexivity..].
  vm_compute (trace _). set_solver.
Qed.

(** Apart from the trace, a repeated disconnect changes nothing. *)
Lemma second_disconnect_state_unchanged :
  let w := run clock [connect alice; disconnect alice] initial in
  let w' := exec (handleDisconnect alice) w in
  userSessions w' = userSessions w ∧ heap w' = heap w
  ∧ activeIntervals w' = activeIntervals w
  ∧ messageHistory w' = messageHistory w
  ∧ globalEventHandlers w' = globalEventHandlers w
  ∧ socketListeners w' = socketListeners w.
Proof. cbv zeta. split_and!; vm_compute; reflexivity. Qed.

End Disconnect.

(** ** subscribe_updates and the update payload *)

Section Subscription.
Variable clock : nat → Z.

Lemma mapM_updates uid session l w :
  mapM (λ i, now ← Date_now clock;
             mret (mkUpdate i ("Update " +:+ pretty (Z.of_nat i) +:+ " for " +:+ uid)
                            session now)) l w
  = (Returned (updates_from clock uid session (clockReads w) l),
     with_clockReads (clockReads w + length l) w).
Proof.
  revert w. induction l as [|i l IH]; intros w.
  - destruct w; simpl. unfold mret, M_ret, with_clockReads; simpl. do 3 f_equal. lia.
  - simpl. unfold mbind at 1, M_bind. unfold mbind at 1, M_bind. unfold Date_now at 1.
    unfold mret at 1, M_ret. unfold mbind at 1, M_bind. rewrite IH.
    unfold mret, M_ret, with_clockReads; simpl. do 3 f_equal. lia.
Qed.

Lemma generateFakeUpdates_eq uid w :
  generateFakeUpdates clock uid w
  = (Returned (uid, updates_from clock uid (find_session uid w) (clockReads w) (seq 0 50)),
     with_clockReads (clockReads w + 50) w).
Proof.
  unfold generateFakeUpdates. unfold mbind at 1, M_bind. unfold gets at 1.
  unfold mbind at 1, M_bind. by rewrite mapM_updates.
Qed.

Lemma updates_from_sessionData uid session k l :
  Forall (λ u, sessionData u = session) (updates_from clock uid session k l).
Proof.
  revert k. induction l as [|i l IH]; intros k; simpl; [done|].
  constructor; [done | apply IH].
Qed.

Lemma updates_from_length uid session k l :
  length (updates_from clock uid session k l) = length l.
Proof. revert k. induction l as [|i l IH]; intros k; simpl; [done | by rewrite IH]. Qed.

(** Every element of a payload built by [generateFakeUpdates] carries the
    reference that the search in [userSessions] returned. *)
Lemma generateFakeUpdates_sessionData uid w :
  ∃ updates,
    (generateFakeUpdates clock uid w).1 = Returned (uid, updates)
    ∧ length updates = 50
    ∧ Forall (λ u, sessionData u = find_session uid w) updates.
Proof.
  rewrite generateFakeUpdates_eq. eexists. split_and!; [done | |].
  - by rewrite updates_from_length.
  - apply updates_from_sessionData.
Qed.

(** C6 (the code after connect). The payload computed for user ["u1"]
    holds 50 updates, and each of them carries in [sessionData] the very
    reference under which [userSessions] holds the live session of the
    connection. *)
Theorem update_payload_embeds_session :
  let w := run clock [connect alice] initial in
  JsMap.get "a" (userSessions w) = Some 0
  ∧ ∃ updates,
      (generateFakeUpdates clock "u1" w).1 = Returned ("u1", updates)
      ∧ length updates = 50
      ∧ Forall (λ u, sessionData u = Some 0) updates.
Proof.
  cbv zeta. split; [vm_compute; reflexivity|].
  destruct (generateFakeUpdates_sessionData "u1" (run clock [connect alice] initial))
    as (updates & Hret & Hlen & Hall).
  exists updates. split_and!; [done..|].
  replace (find_session "u1" (run clock [connect alice] initial)) with (Some 0) in Hall
    by (vm_compute; reflexivity).
  done.
Qed.

(** [handleSubscribeUpdates] starts an interval but writes no session
    object. *)
Lemma handleSubscribeUpdates_starts_interval d c w l :
  JsMap.get (client_id c) (userSessions w) = Some l →
  let w' := exec (handleSubscribeUpdates d c) w in
  activeIntervals w' !! nextTimer w
  = Some (mkInterval (updateInterval (client_id c) (sub_userId d)) 2000)
  ∧ heap w' = heap w.
Proof.
  intros Hl. unfold handleSubscribeUpdates, exec, mbind, M_bind, gets. rewrite Hl.
  simpl. split; [apply lookup_insert_eq | done].
Qed.

(** The session objects change only in [handleConnection], which appends
    one whose [intervals] is empty. *)
Lemma step_heap op w :
  heap (step clock op w) = heap w
  ∨ ∃ c s, op = connect c ∧ intervals s = [] ∧ heap (step clock op w) = heap w ++ [s].
Proof.
  destruct op; unfold step; [|left..].
  - right. destruct (handleConnection_heap clock client w) as [uid Hheap].
    eexists client, _. split_and!; [reflexivity | | exact Hheap]. reflexivity.
  - apply handleDisconnect_keeps_heap.
  - apply handleSubscribeUpdates_keeps_heap.
  - apply handleHeavyComputation_keeps_heap.
  - apply handleGetMemoryStats_keeps_heap.
  - apply handleForceGC_keeps_heap.
  - apply fire_keeps_heap.
  - apply socket_receives_keeps_heap.
Qed.

Lemma step_untracked op w : untracked w → untracked (step clock op w).
Proof.
  unfold untracked. intros Hw.
  destruct (step_heap op w) as [->|(c & s & _ & Hs & ->)]; [done|].
  apply Forall_app. split; [done | by constructor].
Qed.

(** In every state the gateway can reach, no session has recorded any
    interval: the handle made by [handleSubscribeUpdates] is never stored. *)
Lemma reachable_untracked ops : untracked (run clock ops initial).
Proof.
  assert (H : ∀ w, untracked w → untracked (run clock ops w)).
  { induction ops as [|op ops IH]; intros w Hw; [done|].
    simpl. apply IH. by apply step_untracked. }
  apply H. constructor.
Qed.

(** C2 (the code at connect, subscribe_updates, disconnect). The session
    has recorded only its connection timer (handle 1); the interval started
    by subscribe_updates (handle 2) is not in the session, is still active
    after the disconnect, and when it fires it still delivers user_updates
    to the disconnected client. *)
Theorem subscription_survives_disconnect :
  let w := run clock [connect alice; subscribe_updates (mkSubscribeData "u1") alice;
                      disconnect alice] initial in
  (∀ s, s ∈ heap w → intervals s = [] ∧ timers s = [1])
  ∧ activeIntervals w !! 2 = Some (mkInterval (updateInterval "a" "u1") 2000)
  ∧ ∃ updates, performed (fire clock 2) w = [Emit "a" (user_updates "u1" updates)].
Proof.
  cbv zeta. split_and!.
  - intros s Hs. vm_compute in Hs. apply list_elem_of_singleton in Hs. by subst.
  - vm_compute. reflexivity.
  - eexists. vm_compute. reflexivity.
Qed.

End Subscription.

(** ** The message history *)

Section History.
Variable clock : nat → Z.

Lemma heavy_computation_appends n c w :
  length (messageHistory (step clock (heavy_computation (Some n) c) w))
  = S (length (messageHistory w)).
Proof.
  unfold step, exec.
  destruct (handleHeavyComputation_history_Some clock n c w) as [entry ->].
  rewrite length_app. simpl. lia.
Qed.

Lemma heavy_computations_append k n c w :
  length (messageHistory (run clock (replicate k (heavy_computation (Some n) c)) w))
  = length (messageHistory w) + k.
Proof.
  revert w. induction k as [|k IH]; intros w; [simpl; lia|].
  change (replicate (S k) (heavy_computation (Some n) c))
    with (heavy_computation (Some n) c :: replicate k (heavy_computation (Some n) c)).
  rewrite run_cons, IH, heavy_computation_appends. lia.
Qed.

(** The append of the connection timer lets the history grow to 10000
    entries and, on the next one, cuts it to 5000. *)
Lemma connectionTimer_appends socket l s w :
  heap w !! l = Some s →
  length (messageHistory w) < Z.to_nat 10000 →
  length (messageHistory (exec (connectionTimer_callback clock socket l) w))
  = S (length (messageHistory w)).
Proof.
  intros Hs Hlen.
  unfold connectionTimer_callback, exec, mbind, M_bind, Date_now, deref, gets, modify.
  simpl. rewrite Hs. simpl. rewrite length_app. simpl.
  destruct (decide _) as [Hgt|Hle]; simpl; [lia | rewrite length_app; simpl; lia].
Qed.

Lemma connectionTimer_evicts_half socket l s w :
  heap w !! l = Some s →
  Z.to_nat 10000 ≤ length (messageHistory w) →
  length (messageHistory (exec (connectionTimer_callback clock socket l) w))
  = Z.to_nat 5000.
Proof.
  intros Hs Hlen.
  unfold connectionTimer_callback, exec, mbind, M_bind, Date_now, deref, gets, modify.
  simpl. rewrite Hs. simpl. rewrite length_app. simpl.
  destruct (decide _) as [Hgt|Hle]; simpl; [|lia].
  unfold slice_last. rewrite length_drop, length_app. simpl. lia.
Qed.

Lemma fire_connectionTimer t socket l ms w :
  activeIntervals w !! t = Some (mkInterval (connectionTimer socket l) ms) →
  fire clock t w = connectionTimer_callback clock socket l w.
Proof. intros Ht. unfold fire, mbind, M_bind, gets. by rewrite Ht. Qed.

Lemma connectionTimer_callback_keeps_activeIntervals socket l :
  keeps activeIntervals (connectionTimer_callback clock socket l).
Proof. unfold connectionTimer_callback. keeps_auto. Qed.

Lemma connectionTimer_callback_keeps_heap socket l :
  keeps heap (connectionTimer_callback clock socket l).
Proof. unfold connectionTimer_callback. keeps_auto. Qed.

(** While the history holds fewer than 10000 entries, every firing of a
    connection timer adds one. *)
Lemma connectionTimer_fires_grow k t socket l ms s w :
  activeIntervals w !! t = Some (mkInterval (connectionTimer socket l) ms) →
  heap w !! l = Some s →
  length (messageHistory w) + k ≤ Z.to_nat 10000 →
  let w' := run clock (replicate k (timer_fires t)) w in
  length (messageHistory w') = length (messageHistory w) + k
  ∧ activeIntervals w' = activeIntervals w
  ∧ heap w' = heap w.
Proof.
  revert w. induction k as [|k IH]; intros w Ht Hs Hlen; [simpl; split_and!; [lia|done..]|].
  change (replicate (S k) (timer_fires t)) with (timer_fires t :: replicate k (timer_fires t)).
  cbv zeta. rewrite run_cons.
  assert (Hstep : step clock (timer_fires t) w
                  = exec (connectionTimer_callback clock socket l) w).
  { unfold step, exec. by rewrite (fire_connectionTimer t socket l ms). }
  assert (Hi : activeIntervals (step clock (timer_fires t) w) = activeIntervals w).
  { rewrite Hstep. apply connectionTimer_callback_keeps_activeIntervals. }
  assert (Hh : heap (step clock (timer_fires t) w) = heap w).
  { rewrite Hstep. apply connectionTimer_callback_keeps_heap. }
  assert (Hl : length (messageHistory (step clock (timer_fires t) w))
               = S (length (messageHistory w))).
  { rewrite Hstep. apply (connectionTimer_appends socket l s); [done | lia]. }
  destruct (IH (step clock (timer_fires t) w)) as (IH1 & IH2 & IH3).
  - by rewrite Hi.
  - by rewrite Hh.
  - lia.
  - rewrite IH1, IH2, IH3, Hi, Hh, Hl. split_and!; [lia | done..].
Qed.

(** The state after the first client connected: its timer has handle 1
    and its session is object 0. *)
Lemma connect_alice_world :
  let w0 := step clock (connect alice) initial in
  activeIntervals w0 !! 1 = Some (mkInterval (connectionTimer "a" 0) 1000)
  ∧ (∃ s, heap w0 !! 0 = Some s)
  ∧ length (messageHistory w0) = 0.
Proof.
  cbv zeta.
  split_and!; [vm_compute; reflexivity | eexists; vm_compute; reflexivity
              | vm_compute; reflexivity].
Qed.

Lemma connection_history_grows k :
  k ≤ Z.to_nat 10000 →
  length (messageHistory (run clock (connect alice :: replicate k (timer_fires 1)) initial))
  = k.
Proof.
  intros Hk. rewrite run_cons.
  destruct connect_alice_world as (Ht & [s Hs] & H0).
  destruct (connectionTimer_fires_grow k 1 "a" 0 1000 s _ Ht Hs) as (Hlen & _ & _);
    [rewrite H0; lia|].
  rewrite Hlen, H0. lia.
Qed.

Lemma connection_history_evicts k :
  k = Z.to_nat 10000 →
  length (messageHistory
            (run clock (connect alice :: replicate (S k) (timer_fires 1)) initial))
  = Z.to_nat 5000.
Proof.
  intros Hk. rewrite run_cons.
  destruct connect_alice_world as (Ht & [s Hs] & H0).
  destruct (connectionTimer_fires_grow k 1 "a" 0 1000 s _ Ht Hs) as (Hlen & Hi & Hh);
    [rewrite H0; lia|].
  rewrite replicate_S_end, run_app, run_cons, run_nil.
  unfold step at 1. unfold exec at 1.
  rewrite (fire_connectionTimer 1 "a" 0 1000); [|rewrite Hi; exact Ht].
  apply (connectionTimer_evicts_half "a" 0 s); [rewrite Hh; exact Hs | rewrite Hlen; lia].
Qed.

(** C3 (the code under repeated appends). Whatever cap [H_MAX] is chosen,
    [H_MAX + 1] calls of heavy_computation leave more than [H_MAX] entries
    in the history: that append never evicts. The append of the connection
    timer lets the history of a fresh gateway grow to 10000 entries in
    10000 firings and cuts it to 5000 on the next one. *)
Theorem history_not_capped :
  (∀ (H_MAX : nat) (c : Socket) (w : World),
     H_MAX < length (messageHistory
                       (run clock (replicate (S H_MAX) (heavy_computation (Some 1%Z) c)) w)))
  ∧ length (messageHistory
              (run clock (connect alice :: replicate (Z.to_nat 10000) (timer_fires 1)) initial))
    = Z.to_nat 10000
  ∧ length (messageHistory
              (run clock (connect alice :: replicate (S (Z.to_nat 10000)) (timer_fires 1))
                   initial))
    = Z.to_nat 5000.
Proof.
  split_and!.
  - intros H_MAX c w. rewrite heavy_computations_append. lia.
  - apply connection_history_grows. lia.
  - apply connection_history_evicts. reflexivity.
Qed.

End History.

(** ** Well-formedness of the session map *)

Section WellFormed.
Variable clock : nat → Z.

(** The association list stands for a [Map]: in every reachable state its
    keys are pairwise distinct, so its length is the [size] of the map. *)
Lemma reachable_keys_NoDup ops :
  NoDup (JsMap.keys (userSessions (run clock ops initial))).
Proof.
  assert (H : ∀ w, NoDup (JsMap.keys (userSessions w)) →
                   NoDup (JsMap.keys (userSessions (run clock ops w)))).
  { induction ops as [|op ops IH]; intros w Hw; [done|].
    rewrite run_cons. apply IH.
    destruct (step_userSessions clock op w) as [->|(c & _ & ->)]; [done|].
    by apply JsMapFacts.keys_set_NoDup. }
  apply H. constructor.
Qed.

End WellFormed.

(** ** The reachable states *)

Lemma world_ext (w1 w2 : World) :
  heap w1 = heap w2 → userSessions w1 = userSessions w2 →
  globalEventHandlers w1 = globalEventHandlers w2 →
  messageHistory w1 = messageHistory w2 →
  activeIntervals w1 = activeIntervals w2 → nextTimer w1 = nextTimer w2 →
  socketListeners w1 = socketListeners w2 → clockReads w1 = clockReads w2 →
  trace w1 = trace w2 → w1 = w2.
Proof. destruct w1, w2; simpl; intros; by subst. Qed.

Lemma JsMap_get_values {V} (k : string) (v : V) (m : list (string * V)) :
  JsMap.get k m = Some v → v ∈ JsMap.values m.
Proof.
  unfold JsMap.values. induction m as [|[k' v'] m IH]; simpl; [done|].
  destruct (decide (k' = k)); [intros [= ->]; left | intros H; right; by apply IH].
Qed.

Lemma JsMap_values_set {V} (k : string) (v v0 : V) (m : list (string * V)) :
  v0 ∈ JsMap.values (JsMap.set k v m) → v0 = v ∨ v0 ∈ JsMap.values m.
Proof.
  unfold JsMap.values. induction m as [|[k' v'] m IH]; simpl.
  - intros ->%list_elem_of_singleton. by left.
  - destruct (decide (k' = k)); simpl.
    + intros [->|H]%elem_of_cons; [by left | right; by right].
    + intros [->|H]%elem_of_cons; [right; left | destruct (IH H); [by left | right; by right]].
Qed.

Lemma JsMap_set_set {V} (k : string) (v1 v2 : V) (m : list (string * V)) :
  JsMap.set k v2 (JsMap.set k v1 m) = JsMap.set k v2 m.
Proof.
  induction m as [|[k' v'] m IH]; simpl.
  - by rewrite decide_True.
  - destruct (decide (k' = k)) as [->|Hne]; simpl.
    + by rewrite decide_True.
    + by rewrite decide_False, IH.
Qed.

Section Reachable.
Variable clock : nat → Z.

Lemma alter_app_last {A} (f : A → A) (h : list A) (x : A) :
  alter f (length h) (h ++ [x]) = h ++ [f x].
Proof. rewrite <- (Nat.add_0_r (length h)). by rewrite alter_app_r. Qed.

(** [handleConnection] in closed form. *)
Lemma handleConnection_eq c w :
  handleConnection clock c w
  = (Returned (),
     mkWorld (heap w ++ [connection_session clock c w])
             (JsMap.set (client_id c) (length (heap w)) (userSessions w))
             (globalEventHandlers w ++ [globalHandler (client_id c)])
             (messageHistory w)
             (<[nextTimer w := mkInterval (connectionTimer (client_id c) (length (heap w))) 1000]>
                (activeIntervals w))
             (S (nextTimer w))
             (socketListeners w
              ++ [(client_id c, mkListener "pong" (heartbeatCallback (client_id c)))])
             (match auth_userId c with
              | Some u => if decide (u = "") then S (clockReads w) else clockReads w
              | None => S (clockReads w)
              end)
             (trace w ++ [LoggerLog ("Client connected: " +:+ client_id c);
                          LogMemoryUsage "After connection"
                            (JsMap.size (JsMap.set (client_id c) (length (heap w))
                                                   (userSessions w)))
                            (length (messageHistory w))])).
Proof.
  rewrite (surjective_pairing (handleConnection clock c w)).
  f_equal; [apply handleConnection_returns|].
  unfold handleConnection, connection_session, connection_userId.
  destruct (auth_userId c) as [u|]; [destruct (decide (u = ""))|].
  all: apply world_ext; try reflexivity.
  all: simpl; rewrite ?alter_app_last, <- ?app_assoc; reflexivity.
Qed.

(** [handleSubscribeUpdates] in closed form. *)
Lemma handleSubscribeUpdates_eq d c w :
  handleSubscribeUpdates d c w
  = match JsMap.get (client_id c) (userSessions w) with
    | None => (Returned None, w)
    | Some _ =>
        (Returned (Some (mkSubscribed "subscribed" (sub_userId d))),
         with_intervals (<[nextTimer w := mkInterval (updateInterval (client_id c) (sub_userId d))
                                                       2000]>)
                        (S (nextTimer w)) w)
    end.
Proof.
  unfold handleSubscribeUpdates, mbind, M_bind, gets.
  by destruct (JsMap.get (client_id c) (userSessions w)).
Qed.

Lemma handleDisconnect_keeps_nextTimer c : keeps nextTimer (handleDisconnect c).
Proof. unfold handleDisconnect. keeps_auto. Qed.

Lemma handleHeavyComputation_keeps_activeIntervals n c :
  keeps activeIntervals (handleHeavyComputation clock n c).
Proof. unfold handleHeavyComputation, run_result. keeps_auto. Qed.

Lemma handleHeavyComputation_keeps_nextTimer n c :
  keeps nextTimer (handleHeavyComputation clock n c).
Proof. unfold handleHeavyComputation, run_result. keeps_auto. Qed.

Lemma handleGetMemoryStats_keeps_activeIntervals m c :
  keeps activeIntervals (handleGetMemoryStats m c).
Proof. unfold handleGetMemoryStats. keeps_auto. Qed.

Lemma handleGetMemoryStats_keeps_nextTimer m c : keeps nextTimer (handleGetMemoryStats m c).
Proof. unfold handleGetMemoryStats. keeps_auto. Qed.

Lemma handleForceGC_keeps_activeIntervals gc c : keeps activeIntervals (handleForceGC gc c).
Proof. unfold handleForceGC. keeps_auto. Qed.

Lemma handleForceGC_keeps_nextTimer gc c : keeps nextTimer (handleForceGC gc c).
Proof. unfold handleForceGC. keeps_auto. Qed.

Lemma fire_keeps_activeIntervals t : keeps activeIntervals (fire clock t).
Proof.
  unfold fire, run_task, performHeavyOperation, connectionTimer_callback,
    updateInterval_callback, generateFakeUpdates.
  keeps_auto.
Qed.

Lemma fire_keeps_nextTimer t : keeps nextTimer (fire clock t).
Proof.
  unfold fire, run_task, performHeavyOperation, connectionTimer_callback,
    updateInterval_callback, generateFakeUpdates.
  keeps_auto.
Qed.

Lemma socket_receives_keeps_activeIntervals s ev :
  keeps activeIntervals (socket_receives clock s ev).
Proof. unfold socket_receives, run_callback. keeps_auto. Qed.

Lemma socket_receives_keeps_nextTimer s ev : keeps nextTimer (socket_receives clock s ev).
Proof. unfold socket_receives, run_callback. keeps_auto. Qed.

(** Every operation is one of the four kinds of resource step. *)
Lemma step_resource op w : resource_step w (step clock op w).
Proof.
  destruct op as [c|c|d c|n c|m c|gc c|t|c ev]; unfold step.
  - unfold exec. rewrite handleConnection_eq. simpl.
    by apply (rs_connect _ _ c (connection_session clock c w)).
  - destruct (handleDisconnect_activeIntervals c w) as [Hi|(l & s & t0 & Hl & Hs & Ht & Hi)].
    + apply rs_same; [apply handleDisconnect_keeps_heap | apply handleDisconnect_keeps_userSessions
                     | exact Hi | apply handleDisconnect_keeps_nextTimer].
    + apply (rs_clear _ _ (client_id c) l s t0); try done.
      * apply handleDisconnect_keeps_heap.
      * apply handleDisconnect_keeps_userSessions.
      * apply handleDisconnect_keeps_nextTimer.
  - unfold exec. rewrite handleSubscribeUpdates_eq.
    destruct (JsMap.get (client_id c) (userSessions w)); simpl.
    + by apply (rs_subscribe _ _ (client_id c) (sub_userId d)).
    + by apply rs_same.
  - apply rs_same; [apply handleHeavyComputation_keeps_heap
                   | apply handleHeavyComputation_keeps_userSessions
                   | apply handleHeavyComputation_keeps_activeIntervals
                   | apply handleHeavyComputation_keeps_nextTimer].
  - apply rs_same; [apply handleGetMemoryStats_keeps_heap
                   | apply handleGetMemoryStats_keeps_userSessions
                   | apply handleGetMemoryStats_keeps_activeIntervals
                   | apply handleGetMemoryStats_keeps_nextTimer].
  - apply rs_same; [apply handleForceGC_keeps_heap | apply handleForceGC_keeps_userSessions
                   | apply handleForceGC_keeps_activeIntervals
                   | apply handleForceGC_keeps_nextTimer].
  - apply rs_same; [apply fire_keeps_heap | apply fire_keeps_userSessions
                   | apply fire_keeps_activeIntervals | apply fire_keeps_nextTimer].
  - apply rs_same; [apply socket_receives_keeps_heap | apply socket_receives_keeps_userSessions
                   | apply socket_receives_keeps_activeIntervals
                   | apply socket_receives_keeps_nextTimer].
Qed.

Lemma well_formed_initial : well_formed initial.
Proof.
  split.
  - intros t i Ht. unfold initial in Ht. simpl in Ht.
    apply lookup_singleton_Some in Ht as [<- _]. simpl. lia.
  - reflexivity.
  - intros l s Hl. simpl in Hl. by rewrite lookup_nil in Hl.
  - intros k l Hl. discriminate.
  - intros l Hl. by apply elem_of_nil in Hl.
Qed.

Lemma well_formed_nextTimer_pos w : well_formed w → 0 < nextTimer w.
Proof. intros Hw. exact (wf_fresh w Hw 0 _ (wf_global w Hw)). Qed.

Lemma well_formed_resource_step w w' :
  well_formed w → resource_step w w' → well_formed w'.
Proof.
  intros Hw Hstep. pose proof (well_formed_nextTimer_pos w Hw) as Hpos.
  destruct Hstep as [Hh Hm Hi Hn | c s Hsock Htim Hint Hlis Hh Hm Hi Hn
                     | k l s t0 Hk Hs Ht0 Hh Hm Hi Hn | socket uid Hh Hm Hi Hn].
  - split; rewrite ?Hh, ?Hm, ?Hi, ?Hn; intros; try rewrite Hn;
      by eauto using wf_fresh, wf_global, wf_session, wf_map, wf_values.
  - split.
    + intros t i. rewrite Hi, Hn. intros [[<- _]|[_ Ht]]%lookup_insert_Some; [lia|].
      apply (wf_fresh w Hw) in Ht. lia.
    + rewrite Hi, lookup_insert_ne by lia. apply (wf_global w Hw).
    + intros l s' Hl. rewrite Hh in Hl. rewrite Hi, Hn.
      apply lookup_app_Some in Hl as [Hl|[Hge Hl]].
      * destruct (wf_session w Hw l s' Hl) as (t & Ht & Hrange & Hint' & Hlis' & Hact).
        exists t. split_and!; [done | lia | lia | done | done |].
        intros i. rewrite lookup_insert_ne by lia. apply Hact.
      * apply list_lookup_singleton_Some in Hl as [Hl0 <-].
        assert (l = length (heap w)) as -> by lia.
        exists (nextTimer w). rewrite Hsock. split_and!; [done | lia | lia | done | done |].
        intros i. rewrite lookup_insert_eq. by intros [= <-].
    + intros k l. rewrite Hm, Hh. destruct (decide (client_id c = k)) as [<-|Hne].
      * rewrite JsMapFacts.get_set_eq. intros [= <-]. exists s.
        split; [|done]. by rewrite lookup_app_r, Nat.sub_diag.
      * rewrite JsMapFacts.get_set_ne by done. intros Hl.
        destruct (wf_map w Hw k l Hl) as (s' & Hs' & Hk). exists s'.
        split; [|done]. by apply lookup_app_l_Some.
    + intros l. rewrite Hm, Hh, length_app. simpl.
      intros [->|Hl]%JsMap_values_set; [lia|]. apply (wf_values w Hw) in Hl. lia.
  - destruct (wf_session w Hw l s Hs) as (t & Ht & Hrange & _).
    rewrite Ht in Ht0. injection Ht0 as <-.
    split.
    + intros t' i. rewrite Hi, Hn. intros [_ Ht']%lookup_delete_Some.
      by apply (wf_fresh w Hw) in Ht'.
    + rewrite Hi, lookup_delete_ne by lia. apply (wf_global w Hw).
    + intros l' s' Hl'. rewrite Hh in Hl'. rewrite Hi, Hn.
      destruct (wf_session w Hw l' s' Hl') as (t' & Ht' & Hrange' & Hint' & Hlis' & Hact).
      exists t'. split_and!; [done | lia | lia | done | done |].
      intros i [_ Hi']%lookup_delete_Some. by apply Hact.
    + intros k' l'. rewrite Hm, Hh. apply (wf_map w Hw).
    + intros l'. rewrite Hm, Hh. apply (wf_values w Hw).
  - split.
    + intros t i. rewrite Hi, Hn. intros [[<- _]|[_ Ht]]%lookup_insert_Some; [lia|].
      apply (wf_fresh w Hw) in Ht. lia.
    + rewrite Hi, lookup_insert_ne by lia. apply (wf_global w Hw).
    + intros l s Hl. rewrite Hh in Hl. rewrite Hi, Hn.
      destruct (wf_session w Hw l s Hl) as (t & Ht & Hrange & Hint' & Hlis' & Hact).
      exists t. split_and!; [done | lia | lia | done | done |].
      intros i. rewrite lookup_insert_ne by lia. apply Hact.
    + intros k l. rewrite Hm, Hh. apply (wf_map w Hw).
    + intros l. rewrite Hm, Hh. apply (wf_values w Hw).
Qed.

Lemma well_formed_step op w : well_formed w → well_formed (step clock op w).
Proof. intros Hw. apply (well_formed_resource_step w); [done | apply step_resource]. Qed.

Lemma well_formed_run ops w : well_formed w → well_formed (run clock ops w).
Proof.
  revert w. induction ops as [|op ops IH]; intros w Hw; [done|].
  rewrite run_cons. apply IH. by apply well_formed_step.
Qed.

(** Every state the gateway reaches after its constructor is well formed. *)
Lemma reachable_well_formed ops : well_formed (run clock ops initial).
Proof. apply well_formed_run, well_formed_initial. Qed.

End Reachable.

(** ** What stays and what goes in the table of intervals *)

Section Intervals.
Variable clock : nat → Z.

(** X1. The interval started by the constructor is never cleared: after
    any sequence of operations it is still active under handle 0, with its
    period of 5000 ms. *)
Theorem global_timer_never_cleared :
  ∀ ops : list Op,
    activeIntervals (run clock ops initial) !! 0 = Some (mkInterval globalTimer 5000).
Proof. intros ops. apply wf_global, reachable_well_formed. Qed.

Lemma performHeavyOperation_eq w :
  performHeavyOperation w
  = (Returned (),
     with_effect (LoggerDebug "Heavy operation completed with 10000 items")
                 (with_clockReads (clockReads w + Z.to_nat 10000) w)).
Proof. reflexivity. Qed.

(** X2. In every reachable state, a firing of the constructor's interval
    runs [performHeavyOperation], which reads the clock 10000 times, writes
    one debug line and leaves every collection of the gateway as it was. *)
Theorem maintenance_tick_changes_nothing :
  ∀ ops : list Op,
    let w := run clock ops initial in
    let w' := exec (fire clock 0) w in
    performed (fire clock 0) w = [LoggerDebug "Heavy operation completed with 10000 items"]
    ∧ clockReads w' = clockReads w + Z.to_nat 10000
    ∧ heap w' = heap w ∧ userSessions w' = userSessions w
    ∧ messageHistory w' = messageHistory w
    ∧ globalEventHandlers w' = globalEventHandlers w
    ∧ socketListeners w' = socketListeners w
    ∧ activeIntervals w' = activeIntervals w.
Proof.
  intros ops w w'. subst w'.
  assert (Hfire : fire clock 0 w = performHeavyOperation w).
  { assert (Hg : activeIntervals (run clock ops initial) !! (0 : TimerId)
                 = Some (mkInterval globalTimer 5000))
      by apply wf_global, reachable_well_formed.
    unfold fire, mbind, M_bind, gets. subst w. by rewrite Hg. }
  unfold performed, exec. rewrite Hfire, performHeavyOperation_eq.
  split_and!; try reflexivity.
  simpl. by rewrite drop_app_length.
Qed.

(** An active interval that is not a connection timer survives every
    resource step. *)
Lemma resource_step_keeps_interval w w' t i :
  well_formed w → resource_step w w' →
  activeIntervals w !! t = Some i →
  (∀ socket l, task i ≠ connectionTimer socket l) →
  activeIntervals w' !! t = Some i.
Proof.
  intros Hw Hstep Ht Hi. pose proof (wf_fresh w Hw t i Ht) as Hlt.
  destruct Hstep as [_ _ -> _ | c s _ _ _ _ _ _ -> _
                     | k l s t0 Hk Hs Ht0 _ _ -> _ | socket uid _ _ -> _].
  - done.
  - by rewrite lookup_insert_ne by lia.
  - destruct (wf_session w Hw l s Hs) as (t1 & Ht1 & _ & _ & _ & Hact).
    rewrite Ht1 in Ht0. injection Ht0 as <-.
    destruct (decide (t1 = t)) as [->|Hne].
    + specialize (Hact i Ht). subst i. by destruct (Hi (socketId s) l).
    + by rewrite lookup_delete_ne.
  - by rewrite lookup_insert_ne by lia.
Qed.

Lemma run_keeps_interval ops w t i :
  well_formed w →
  activeIntervals w !! t = Some i →
  (∀ socket l, task i ≠ connectionTimer socket l) →
  activeIntervals (run clock ops w) !! t = Some i.
Proof.
  revert w. induction ops as [|op ops IH]; intros w Hw Ht Hi; [done|].
  rewrite run_cons. apply IH; [by apply well_formed_step | | done].
  apply (resource_step_keeps_interval w); [done | apply step_resource | done..].
Qed.

(** X3. An interval started by subscribe_updates is never cleared: from
    any reachable state in which the caller has a session, the interval the
    call starts is still active after every continuation, disconnects
    included. *)
Theorem update_interval_never_cleared :
  ∀ (ops : list Op) (d : SubscribeData) (c : Socket) (ops' : list Op),
    let w := run clock ops initial in
    is_Some (JsMap.get (client_id c) (userSessions w)) →
    activeIntervals (run clock ops' (step clock (subscribe_updates d c) w)) !! nextTimer w
    = Some (mkInterval (updateInterval (client_id c) (sub_userId d)) 2000).
Proof.
  intros ops d c ops' w [l Hl].
  assert (Hw : well_formed w) by apply reachable_well_formed.
  apply run_keeps_interval; [by apply well_formed_step | | done].
  unfold step, exec. rewrite handleSubscribeUpdates_eq, Hl. simpl.
  apply lookup_insert_eq.
Qed.

(** What [handleDisconnect] does for a session that holds a timer. *)
Lemma handleDisconnect_eq_present c w l s t0 ts :
  JsMap.get (client_id c) (userSessions w) = Some l →
  heap w !! l = Some s →
  timers s = t0 :: ts →
  activeIntervals (exec (handleDisconnect c) w) = delete t0 (activeIntervals w)
  ∧ performed (handleDisconnect c) w
    = [LoggerLog ("Client disconnected: " +:+ client_id c);
       ClearInterval t0;
       LogMemoryUsage "After disconnection" (JsMap.size (userSessions w))
                      (length (messageHistory w))].
Proof.
  intros Hl Hs Ht.
  unfold performed, handleDisconnect, exec, mbind, M_bind, gets, logger_log, modify, deref,
    logMemoryUsage, clearInterval. simpl.
  rewrite Hl. simpl. rewrite Hs. simpl. rewrite Ht. simpl.
  split; [done|]. rewrite <- !app_assoc. by rewrite drop_app_length.
Qed.

(** X4. In every reachable state, disconnect of a client that has a
    session clears every timer the session holds (it holds exactly one, its
    connection timer), with a single [clearInterval] call. *)
Theorem disconnect_clears_session_timers :
  ∀ (ops : list Op) (c : Socket) (l : loc) (s : UserSession),
    let w := run clock ops initial in
    JsMap.get (client_id c) (userSessions w) = Some l →
    heap w !! l = Some s →
    (∀ t, t ∈ timers s → activeIntervals (exec (handleDisconnect c) w) !! t = None)
    ∧ ∃ t0, timers s = [t0]
            ∧ performed (handleDisconnect c) w
              = [LoggerLog ("Client disconnected: " +:+ client_id c);
                 ClearInterval t0;
                 LogMemoryUsage "After disconnection" (JsMap.size (userSessions w))
                                (length (messageHistory w))].
Proof.
  intros ops c l s w Hl Hs.
  assert (Hw : well_formed w) by apply reachable_well_formed.
  destruct (wf_session w Hw l s Hs) as (t0 & Ht0 & _).
  destruct (handleDisconnect_eq_present c w l s t0 [] Hl Hs Ht0) as [Hi Hp].
  split.
  - intros t Ht. rewrite Ht0 in Ht. apply list_elem_of_singleton in Ht as ->.
    rewrite Hi. apply lookup_delete_eq.
  - by exists t0.
Qed.

(** disconnect of a client that has no session only writes its two
    log lines: no [clearInterval] call, and no change to any collection. *)
Lemma disconnect_without_session :
  ∀ (c : Socket) (w : World),
    JsMap.get (client_id c) (userSessions w) = None →
    handleDisconnect c w
    = (Returned (),
       with_effect (LogMemoryUsage "After disconnection" (JsMap.size (userSessions w))
                                   (length (messageHistory w)))
         (with_effect (LoggerLog ("Client disconnected: " +:+ client_id c)) w)).
Proof.
  intros c w Hnone.
  unfold handleDisconnect, mbind, M_bind, gets, logger_log, modify, logMemoryUsage. simpl.
  by rewrite Hnone.
Qed.

End Intervals.

Lemma update_interval_never_cleared_witness :
  is_Some (JsMap.get (client_id alice) (userSessions (run tick_clock [connect alice] initial)))
  ∧ activeIntervals
      (run tick_clock [disconnect alice]
         (step tick_clock (subscribe_updates (mkSubscribeData "u1") alice)
            (run tick_clock [connect alice] initial)))
    !! nextTimer (run tick_clock [connect alice] initial)
    = Some (mkInterval (updateInterval "a" "u1") 2000).
Proof.
  assert (H : is_Some (JsMap.get (client_id alice)
                         (userSessions (run tick_clock [connect alice] initial))))
    by (vm_compute; eauto).
  split; [exact H|].
  exact (update_interval_never_cleared tick_clock [connect alice] (mkSubscribeData "u1") alice
           [disconnect alice] H).
Defined.

Lemma disconnect_clears_session_timers_witness :
  JsMap.get (client_id alice) (userSessions (run tick_clock [connect alice] initial)) = Some 0
  ∧ activeIntervals (exec (handleDisconnect alice) (run tick_clock [connect alice] initial)) !! 1
    = None.
Proof.
  split; [reflexivity|].
  refine (proj1 (disconnect_clears_session_timers tick_clock [connect alice] alice 0
                   (connection_session tick_clock alice initial) eq_refl eq_refl) 1 _).
  vm_compute. apply list_elem_of_here.
Defined.

Lemma disconnect_without_session_witness :
  JsMap.get (client_id alice) (userSessions initial) = None
  ∧ (handleDisconnect alice initial).1 = Returned ().
Proof.
  split; [reflexivity|].
  exact (f_equal fst (disconnect_without_session alice initial eq_refl)).
Defined.

(** ** Registration *)

Section Registration.
Variable clock : nat → Z.

(** X5. connect registers the client: afterwards the map holds, under
    [client.id], a reference to a new session object with that socket id,
    a 1 MiB buffer, the freshly started 1000 ms connection timer as its only
    timer, no interval and its pong listener; that timer is active; the
    user id is the one of the handshake, or ["anonymous_<now>"] when the
    handshake has none or an empty one. Entries under other ids are as
    before. *)
Theorem connect_registers_session :
  ∀ (c : Socket) (w : World),
    let w' := exec (handleConnection clock c) w in
    ∃ s,
      JsMap.get (client_id c) (userSessions w') = Some (length (heap w))
      ∧ heap w' !! length (heap w) = Some s
      ∧ socketId s = client_id c
      ∧ buf_length (data s) = 1048576%N
      ∧ timers s = [nextTimer w] ∧ intervals s = []
      ∧ listeners s = [mkListener "pong" (heartbeatCallback (client_id c))]
      ∧ activeIntervals w' !! nextTimer w
        = Some (mkInterval (connectionTimer (client_id c) (length (heap w))) 1000)
      ∧ (∀ u, auth_userId c = Some u → u ≠ "" → userId s = u)
      ∧ (auth_userId c = None ∨ auth_userId c = Some "" →
         userId s = "anonymous_" +:+ pretty (clock (clockReads w)))
      ∧ (∀ k, k ≠ client_id c →
              JsMap.get k (userSessions w') = JsMap.get k (userSessions w)).
Proof.
  intros c w w'. subst w'. unfold exec. rewrite handleConnection_eq. simpl.
  exists (connection_session clock c w). split_and!; try done.
  - apply JsMapFacts.get_set_eq.
  - by rewrite lookup_app_r, Nat.sub_diag.
  - apply lookup_insert_eq.
  - intros u Hu Hne. simpl. unfold connection_userId. rewrite Hu. by rewrite decide_False.
  - intros [Hu|Hu]; simpl; unfold connection_userId; rewrite Hu; [done|].
    by rewrite decide_True.
  - intros k Hk. by rewrite JsMapFacts.get_set_ne.
Qed.

(** Existing session objects are never written. *)
Lemma step_keeps_session op w l s :
  heap w !! l = Some s → heap (step clock op w) !! l = Some s.
Proof.
  intros Hl. destruct (step_heap clock op w) as [->|(c & s' & _ & _ & ->)]; [done|].
  by apply lookup_app_l_Some.
Qed.

Lemma run_keeps_session ops w l s :
  heap w !! l = Some s → heap (run clock ops w) !! l = Some s.
Proof.
  revert w. induction ops as [|op ops IH]; intros w Hl; [done|].
  rewrite run_cons. apply IH. by apply step_keeps_session.
Qed.

(** The session object made by a connect is not written by any later
    operation. *)
Lemma session_object_unchanged :
  ∀ (c : Socket) (w : World) (ops : list Op),
    heap (run clock ops (step clock (connect c) w)) !! length (heap w)
    = Some (connection_session clock c w).
Proof.
  intros c w ops. apply run_keeps_session.
  unfold step, exec. rewrite handleConnection_eq. simpl.
  by rewrite lookup_app_r, Nat.sub_diag.
Qed.

(** Operations other than connect leave the handlers and listeners alone. *)
Lemma step_registrations op w :
  (globalEventHandlers (step clock op w) = globalEventHandlers w
   ∧ socketListeners (step clock op w) = socketListeners w
   ∧ connected_ids [op] = [])
  ∨ ∃ c, op = connect c
         ∧ globalEventHandlers (step clock op w)
           = globalEventHandlers w ++ [globalHandler (client_id c)]
         ∧ socketListeners (step clock op w)
           = socketListeners w
             ++ [(client_id c, mkListener "pong" (heartbeatCallback (client_id c)))].
Proof.
  destruct op as [c|c|d c|n c|m c|gc c|t|c ev]; unfold step; [right|left..].
  - exists c. unfold exec. by rewrite handleConnection_eq.
  - split_and!; [apply handleDisconnect_keeps_globalEventHandlers
                | apply handleDisconnect_keeps_socketListeners | done].
  - unfold exec. rewrite handleSubscribeUpdates_eq.
    by destruct (JsMap.get (client_id c) (userSessions w)).
  - unfold exec. rewrite handleHeavyComputation_eq. by destruct n.
  - done.
  - by destruct gc as [[? ?]|].
  - split_and!; [| | done].
    + assert (H : keeps globalEventHandlers (fire clock t)); [|apply H].
      unfold fire, run_task, performHeavyOperation, connectionTimer_callback,
        updateInterval_callback, generateFakeUpdates. keeps_auto.
    + assert (H : keeps socketListeners (fire clock t)); [|apply H].
      unfold fire, run_task, performHeavyOperation, connectionTimer_callback,
        updateInterval_callback, generateFakeUpdates. keeps_auto.
  - split_and!; [| | done].
    + assert (H : keeps globalEventHandlers (socket_receives clock (client_id c) ev));
        [|apply H].
      unfold socket_receives, run_callback. keeps_auto.
    + assert (H : keeps socketListeners (socket_receives clock (client_id c) ev));
        [|apply H].
      unfold socket_receives, run_callback. keeps_auto.
Qed.

Lemma connected_ids_cons op ops :
  connected_ids (op :: ops) = connected_ids [op] ++ connected_ids ops.
Proof. unfold connected_ids. simpl. by destruct op. Qed.

Lemma run_registrations ops w :
  globalEventHandlers (run clock ops w)
  = globalEventHandlers w ++ (globalHandler <$> connected_ids ops)
  ∧ socketListeners (run clock ops w)
    = socketListeners w
      ++ ((λ k, (k, mkListener "pong" (heartbeatCallback k))) <$> connected_ids ops).
Proof.
  revert w. induction ops as [|op ops IH]; intros w.
  - simpl. by rewrite !app_nil_r.
  - rewrite run_cons, connected_ids_cons.
    destruct (IH (step clock op w)) as [-> ->].
    destruct (step_registrations op w) as [(-> & -> & ->)|(c & -> & -> & ->)]; [done|].
    simpl. by rewrite <- !app_assoc.
Qed.

(** X6. Handlers and listeners only accumulate: after any sequence of
    operations on a fresh gateway, [globalEventHandlers] holds one handler
    per connect that occurred, in order, and one pong listener per connect
    is registered; no disconnect removes any. *)
Theorem registrations_accumulate :
  ∀ ops : list Op,
    globalEventHandlers (run clock ops initial) = globalHandler <$> connected_ids ops
    ∧ socketListeners (run clock ops initial)
      = (λ k, (k, mkListener "pong" (heartbeatCallback k))) <$> connected_ids ops.
Proof. intros ops. apply (run_registrations ops initial). Qed.

Lemma run_keys ops w k :
  k ∈ JsMap.keys (userSessions (run clock ops w))
  ↔ k ∈ JsMap.keys (userSessions w) ∨ k ∈ connected_ids ops.
Proof.
  revert w. induction ops as [|op ops IH]; intros w.
  - simpl. unfold connected_ids. simpl. rewrite elem_of_nil. tauto.
  - rewrite run_cons, IH, connected_ids_cons, elem_of_app.
    destruct (step_userSessions clock op w) as [Heq|(c & -> & Heq)]; rewrite Heq.
    + assert (k ∈ connected_ids [op] → k ∈ JsMap.keys (userSessions w)) as Hop.
      { intros Hin. destruct op; try by apply elem_of_nil in Hin.
        apply list_elem_of_singleton in Hin as ->.
        apply JsMapFacts.get_Some_keys. rewrite <- Heq. unfold step.
        rewrite handleConnection_userSessions, JsMapFacts.get_set_eq. by eexists. }
      tauto.
    + rewrite <- !JsMapFacts.get_Some_keys.
      change (connected_ids [connect c]) with [client_id c].
      rewrite list_elem_of_singleton.
      destruct (decide (client_id c = k)) as [->|Hne].
      * rewrite JsMapFacts.get_set_eq. split; [tauto | intros _; left; by eexists].
      * rewrite JsMapFacts.get_set_ne by done. split; [tauto|].
        intros [H|[H|H]]; [by left | congruence | by right].
Qed.

(** X7. The figures of get_memory_stats on a gateway that has run [ops]
    since its start: [activeSessions] is the number of distinct client ids
    that ever connected, and [globalHandlers] the number of connects. *)
Theorem stats_count_connections :
  ∀ (ops : list Op) (memUsage : MemoryUsage) (c : Socket),
    ∃ stats,
      (handleGetMemoryStats memUsage c (run clock ops initial)).1 = Returned stats
      ∧ activeSessions stats = length (remove_dups (connected_ids ops))
      ∧ globalHandlers stats = length (connected_ids ops)
      ∧ messageHistoryLength stats = length (messageHistory (run clock ops initial)).
Proof.
  intros ops memUsage c. eexists. split; [reflexivity|]. simpl. split_and!.
  - unfold JsMap.size. rewrite <- (length_fmap fst).
    apply Permutation_length, NoDup_Permutation.
    + apply reachable_keys_NoDup.
    + apply NoDup_remove_dups.
    + intros k. fold (JsMap.keys (userSessions (run clock ops initial))).
      rewrite run_keys, elem_of_remove_dups. simpl. rewrite elem_of_nil. tauto.
  - destruct (run_registrations ops initial) as [-> _]. simpl. by rewrite length_fmap.
  - done.
Qed.

Lemma run_keeps_entry ops w k l :
  k ∉ connected_ids ops →
  JsMap.get k (userSessions w) = Some l →
  JsMap.get k (userSessions (run clock ops w)) = Some l.
Proof.
  revert w. induction ops as [|op ops IH]; intros w Hk Hl; [done|].
  rewrite connected_ids_cons in Hk. apply not_elem_of_app in Hk as [Hop Hops].
  rewrite run_cons. apply IH; [done|].
  destruct (step_userSessions clock op w) as [->|(c & -> & ->)]; [done|].
  rewrite JsMapFacts.get_set_ne; [done|].
  intros Heq. apply Hop. rewrite <- Heq. apply list_elem_of_here.
Qed.

(** X17. The session of a client stays reachable from the session map:
    after a connect, every later sequence of operations in which that
    client id does not connect again (disconnects of the client included)
    leaves the map entry of the client referring to the session object made
    by the connect, and that object, with its 1 MiB buffer, as it was. *)
Theorem session_entry_retained :
  ∀ (c : Socket) (w : World) (ops : list Op),
    client_id c ∉ connected_ids ops →
    let w' := run clock ops (step clock (connect c) w) in
    JsMap.get (client_id c) (userSessions w') = Some (length (heap w))
    ∧ heap w' !! length (heap w) = Some (connection_session clock c w)
    ∧ buf_length (data (connection_session clock c w)) = 1048576%N.
Proof.
  intros c w ops Hc w'. subst w'. split_and!.
  - apply run_keeps_entry; [done|].
    unfold step. rewrite handleConnection_userSessions. apply JsMapFacts.get_set_eq.
  - apply run_keeps_session.
    unfold step, exec. rewrite handleConnection_eq. simpl.
    by rewrite lookup_app_r, Nat.sub_diag.
  - reflexivity.
Qed.

End Registration.

Lemma session_entry_retained_witness :
  (client_id alice ∉ connected_ids [disconnect alice; disconnect alice])
  ∧ JsMap.get (client_id alice)
      (userSessions (run tick_clock [disconnect alice; disconnect alice]
                         (step tick_clock (connect alice) initial)))
    = Some 0.
Proof.
  assert (H : client_id alice ∉ connected_ids [disconnect alice; disconnect alice])
    by apply not_elem_of_nil.
  split; [exact H|].
  exact (proj1 (session_entry_retained tick_clock alice initial
                  [disconnect alice; disconnect alice] H)).
Defined.

(** ** Heartbeats *)

Section Heartbeats.
Variable clock : nat → Z.

Lemma forEach_listeners socket ev ids w :
  forEach (λ sl : string * Listener,
             if decide (sl.1 = socket ∧ event sl.2 = ev)
             then run_callback clock (callback sl.2) else mret ())
          ((λ k, (k, mkListener "pong" (heartbeatCallback k))) <$> ids) w
  = (Returned (),
     mkWorld (heap w) (userSessions w) (globalEventHandlers w) (messageHistory w)
             (activeIntervals w) (nextTimer w) (socketListeners w)
             (clockReads w + length (filter (λ k, k = socket ∧ "pong" = ev) ids))
             (trace w ++ ((λ j, Emit socket (heartbeat (clock j)))
                          <$> seq (clockReads w)
                                  (length (filter (λ k, k = socket ∧ "pong" = ev) ids))))).
Proof.
  revert w. induction ids as [|k ids IH]; intros w.
  - destruct w; simpl. unfold mret, M_ret. do 2 f_equal; [lia | by rewrite app_nil_r].
  - rewrite fmap_cons. cbn [forEach]. unfold mbind at 1, M_bind. cbn [fst snd event callback].
    rewrite filter_cons. destruct (decide (k = socket ∧ "pong" = ev)) as [[-> Hev]|Hno].
    + unfold run_callback, mbind, M_bind, Date_now, client_emit, modify. cbn [fst snd].
      rewrite IH. simpl. do 2 f_equal; [lia | by rewrite <- app_assoc].
    + unfold mret at 1, M_ret. by rewrite IH.
Qed.

Lemma filter_eq_NoDup (socket : string) (ids : list string) :
  NoDup ids →
  length (filter (λ k, k = socket ∧ "pong" = "pong") ids)
  = if decide (socket ∈ ids) then 1 else 0.
Proof.
  induction ids as [|k ids IH]; intros Hnd.
  - by rewrite decide_False by apply not_elem_of_nil.
  - apply NoDup_cons in Hnd as [Hk Hnd]. rewrite filter_cons.
    destruct (decide (k = socket ∧ "pong" = "pong")) as [[-> _]|Hno]; simpl;
      rewrite (IH Hnd).
    + rewrite (decide_False (P := socket ∈ ids)) by done.
      by rewrite decide_True by left.
    + assert (k ≠ socket) as Hne by (intros ->; by apply Hno).
      destruct (decide (socket ∈ ids)) as [Hin|Hnin].
      * rewrite decide_True; [done | by right].
      * rewrite decide_False; [done|]. intros [->|?]%elem_of_cons; done.
Qed.

(** X8. The pong listener outlives the connection: in a gateway that has
    run [ops] since its start, where every client id connected at most
    once, a pong on the socket of [c] is answered by exactly one heartbeat
    if [c] ever connected, also when it has disconnected since, and by none
    if it never connected. *)
Theorem pong_answered_after_disconnect :
  ∀ (ops : list Op) (c : Socket),
    NoDup (connected_ids ops) →
    let w := run clock ops initial in
    performed (socket_receives clock (client_id c) "pong") w
    = if decide (client_id c ∈ connected_ids ops)
      then [Emit (client_id c) (heartbeat (clock (clockReads w)))]
      else [].
Proof.
  intros ops c Hnd w. unfold performed, socket_receives, mbind, M_bind, gets.
  subst w. destruct (run_registrations clock ops initial) as [_ ->]. simpl.
  rewrite forEach_listeners. simpl. rewrite drop_app_length, filter_eq_NoDup by done.
  by destruct (decide (client_id c ∈ connected_ids ops)).
Qed.

End Heartbeats.

Lemma pong_answered_after_disconnect_witness :
  NoDup (connected_ids [connect alice; disconnect alice])
  ∧ performed (socket_receives tick_clock (client_id alice) "pong")
              (run tick_clock [connect alice; disconnect alice] initial)
    = if decide (client_id alice ∈ connected_ids [connect alice; disconnect alice])
      then [Emit (client_id alice)
                 (heartbeat (tick_clock
                    (clockReads (run tick_clock [connect alice; disconnect alice] initial))))]
      else [].
Proof.
  assert (H : NoDup (connected_ids [connect alice; disconnect alice]))
    by apply NoDup_singleton.
  split; [exact H|].
  exact (pong_answered_after_disconnect tick_clock [connect alice; disconnect alice] alice H).
Defined.

(** ** The history, as the connection timer keeps it *)

Section TimerHistory.
Variable clock : nat → Z.

Lemma slice_last_snoc {A} (k : nat) (l : list A) (x : A) :
  0 < k → ∃ l', slice_last k (l ++ [x]) = l' ++ [x] ∧ l' `suffix_of` l.
Proof.
  intros Hk. unfold slice_last. rewrite length_app. simpl.
  exists (drop (length l + 1 - k) l). split.
  - rewrite drop_app_le by lia. done.
  - apply suffix_drop.
Qed.

(** X9. The append of the connection timer never leaves more than 10000
    entries, whatever the length before, and never loses the newest ones:
    the history afterwards is a suffix of the old history followed by the
    new ping entry, and it ends with that entry. *)
Theorem connectionTimer_history_bound :
  ∀ (socket : string) (l : loc) (s : UserSession) (w : World),
    heap w !! l = Some s →
    let w' := exec (connectionTimer_callback clock socket l) w in
    let entry := mkHistoryEntry (clock (clockReads w)) ("Ping from " +:+ socket) (userId s) in
    length (messageHistory w') ≤ Z.to_nat 10000
    ∧ ∃ kept, messageHistory w' = kept ++ [entry] ∧ kept `suffix_of` messageHistory w.
Proof.
  intros socket l s w Hs w' entry. subst w' entry.
  unfold connectionTimer_callback, exec, mbind, M_bind, Date_now, deref, gets, modify.
  simpl. rewrite Hs. simpl. rewrite length_app. simpl.
  destruct (decide _) as [Hgt|Hle]; simpl.
  - split.
    + unfold slice_last. rewrite length_drop, length_app. simpl. lia.
    + apply slice_last_snoc. lia.
  - split; [rewrite length_app; simpl; lia|].
    eexists. split; [reflexivity | done].
Qed.

End TimerHistory.

Lemma connectionTimer_history_bound_witness :
  heap (run tick_clock [connect alice] initial) !! 0
  = Some (connection_session tick_clock alice initial)
  ∧ length (messageHistory
              (exec (connectionTimer_callback tick_clock "a" 0)
                    (run tick_clock [connect alice] initial))) ≤ Z.to_nat 10000.
Proof.
  split; [reflexivity|].
  exact (proj1 (connectionTimer_history_bound tick_clock "a" 0
                  (connection_session tick_clock alice initial)
                  (run tick_clock [connect alice] initial) eq_refl)).
Defined.

(** ** heavy_computation at its edges *)

Section HeavyComputationEdges.
Variable clock : nat → Z.

(** X10. With a negative integer [iterations] (one a [number] holds
    exactly, above -2^53) the loop body never runs: no event is emitted, the
    call returns [{processed: 0}], and the history still receives its
    summary entry, for 0 operations, under the decimal of the negative
    number as user id. *)
Theorem heavy_computation_negative :
  ∀ (n : Z) (c : Socket) (w : World),
    (-9007199254740992 < n < 0)%Z →
    handleHeavyComputation clock (Some n) c w
    = (Returned (mkComputed 0),
       with_messageHistory
         (λ h, h ++ [mkHistoryEntry (clock (clockReads w))
                       "Heavy computation completed: 0 operations" (pretty n)])
         (with_clockReads (S (clockReads w)) w)).
Proof.
  intros n c w Hn. rewrite handleHeavyComputation_eq.
  assert (Hres : build_results (iterations_or_default (Some n)) = []).
  { unfold build_results, iterations_or_default. rewrite decide_False by lia.
    by replace (Z.to_nat n) with 0 by lia. }
  rewrite Hres. cbv zeta. simpl length. rewrite Nat.add_0_r, app_nil_r.
  by destruct w.
Qed.

(** X11. Whatever its payload, and also when it throws, heavy_computation
    touches neither the session objects, the session map, the handlers,
    the listeners nor the intervals, and every effect it performs is an
    event sent to its caller. *)
Theorem heavy_computation_touches_no_resource :
  ∀ (iterations : option Z) (c : Socket) (w : World),
    let w' := exec (handleHeavyComputation clock iterations c) w in
    heap w' = heap w ∧ userSessions w' = userSessions w
    ∧ globalEventHandlers w' = globalEventHandlers w
    ∧ socketListeners w' = socketListeners w
    ∧ activeIntervals w' = activeIntervals w ∧ nextTimer w' = nextTimer w
    ∧ Forall (λ e, ∃ p, e = Emit (client_id c) p)
             (performed (handleHeavyComputation clock iterations c) w).
Proof.
  intros iterations c w w'. subst w'. unfold exec.
  rewrite handleHeavyComputation_performed, handleHeavyComputation_eq.
  split_and!; try by destruct iterations.
  generalize (clockReads w) as k.
  induction (build_results (iterations_or_default iterations)) as [|i l IH]; intros k.
  - constructor.
  - simpl. constructor; [by eexists | apply IH].
Qed.

End HeavyComputationEdges.

Lemma heavy_computation_negative_witness :
  (-9007199254740992 < -3 < 0)%Z
  ∧ (handleHeavyComputation tick_clock (Some (-3)%Z) alice initial).1
    = Returned (mkComputed 0).
Proof.
  split; [lia|].
  refine (f_equal fst (heavy_computation_negative tick_clock (-3) alice initial _)). lia.
Defined.

(** ** Diagnostics *)

Section Diagnostics.

Lemma round_MB_bounds x :
  (x - 524288 < 1048576 * round_MB x ≤ x + 524288)%Z.
Proof.
  unfold round_MB.
  pose proof (Z.div_mod (x + 524288) 1048576) as Hdm.
  pose proof (Z.mod_pos_bound (x + 524288) 1048576) as Hb. lia.
Qed.

(** X12. get_memory_stats only reads: it changes nothing but the trace, to
    which it adds the one [memory_stats] event carrying the figures it
    returns; its counts are the sizes of the three collections, and each
    memory figure, in MiB, is within half a MiB of the byte count it
    rounds. *)
Theorem get_memory_stats_reads_only :
  ∀ (memUsage : MemoryUsage) (c : Socket) (w : World),
    ∃ stats,
      handleGetMemoryStats memUsage c w
      = (Returned stats, with_effect (Emit (client_id c) (memory_stats stats)) w)
      ∧ activeSessions stats = JsMap.size (userSessions w)
      ∧ messageHistoryLength stats = length (messageHistory w)
      ∧ globalHandlers stats = length (globalEventHandlers w)
      ∧ (rss memUsage - 524288 < 1048576 * rss (memoryUsage stats)
         ≤ rss memUsage + 524288)%Z
      ∧ (heapUsed memUsage - 524288 < 1048576 * heapUsed (memoryUsage stats)
         ≤ heapUsed memUsage + 524288)%Z.
Proof.
  intros memUsage c w.
  exists (mkStats (mkMemoryUsage (round_MB (rss memUsage)) (round_MB (heapUsed memUsage))
                                 (round_MB (heapTotal memUsage)) (round_MB (external memUsage)))
                  (JsMap.size (userSessions w)) (length (messageHistory w))
                  (length (globalEventHandlers w))).
  split; [reflexivity|]. simpl.
  split_and!; try done; apply round_MB_bounds.
Qed.

(** X13. force_gc changes nothing but the trace, to which it adds exactly
    one [gc_result] event for the caller. With the collector exposed, the
    [freed] figure is rounded on its own, so it may differ from
    [before - after] as reported, but by at most 1; without it the event
    carries the error text. *)
Theorem force_gc_reports :
  ∀ (gc : option (Z * Z)) (c : Socket) (w : World),
    ∃ p,
      handleForceGC gc c w = (Returned (), with_effect (Emit (client_id c) p) w)
      ∧ event_name p = "gc_result"
      ∧ match gc with
        | Some (before, after) =>
            ∃ b a f, p = gc_result b a f ∧ (-1 ≤ f - (b - a) ≤ 1)%Z
        | None => p = gc_error "GC not exposed. Start with --expose-gc flag"
        end.
Proof.
  intros gc c w. destruct gc as [[before after]|].
  - eexists. split; [reflexivity|]. split; [reflexivity|].
    eexists _, _, _. split; [reflexivity|].
    pose proof (round_MB_bounds before). pose proof (round_MB_bounds after).
    pose proof (round_MB_bounds (before - after)). lia.
  - eexists. by split_and!.
Qed.

End Diagnostics.

(** ** Update payloads and subscriptions *)

Section Updates.
Variable clock : nat → Z.

Lemma updates_from_ids uid session k l :
  upd_id <$> updates_from clock uid session k l = l.
Proof. revert k. induction l as [|i l IH]; intros k; simpl; [done | by rewrite IH]. Qed.

Lemma updates_from_timestamps uid session k l :
  upd_timestamp <$> updates_from clock uid session k l = clock <$> seq k (length l).
Proof. revert k. induction l as [|i l IH]; intros k; simpl; [done | by rewrite IH]. Qed.

Lemma updates_from_messages uid session k l :
  Forall (λ u, upd_message u = "Update " +:+ pretty (Z.of_nat (upd_id u)) +:+ " for " +:+ uid)
         (updates_from clock uid session k l).
Proof.
  revert k. induction l as [|i l IH]; intros k; simpl; [done|].
  constructor; [done | apply IH].
Qed.

(** The search of [generateFakeUpdates] fails exactly when no registered
    session object has the user id. *)
Lemma find_session_None uid w :
  find_session uid w = None
  ↔ ∀ l s, l ∈ JsMap.values (userSessions w) → heap w !! l = Some s → userId s ≠ uid.
Proof.
  unfold find_session. induction (JsMap.values (userSessions w)) as [|l0 ls IH]; simpl.
  - split; [intros _ l s Hl; by apply elem_of_nil in Hl | done].
  - destruct (heap w !! l0) as [s0|] eqn:Hs0.
    + destruct (bool_decide (userId s0 = uid)) eqn:Hb.
      * apply bool_decide_eq_true in Hb. split; [done|].
        intros H. destruct (H l0 s0); [left | done..].
      * apply bool_decide_eq_false in Hb. rewrite IH. split.
        -- intros H l s [->|Hl]%elem_of_cons Hs; [congruence | by eapply H].
        -- intros H l s Hl. apply H. by right.
    + rewrite IH. split.
      * intros H l s [->|Hl]%elem_of_cons Hs; [congruence | by eapply H].
      * intros H l s Hl. apply H. by right.
Qed.

Lemma find_session_Some uid w l :
  find_session uid w = Some l →
  l ∈ JsMap.values (userSessions w) ∧ ∃ s, heap w !! l = Some s ∧ userId s = uid.
Proof.
  unfold find_session. intros [Hin Hf]%find_some.
  split; [by apply list_elem_of_In|].
  destruct (heap w !! l) as [s|]; [|done].
  apply bool_decide_eq_true in Hf. by exists s.
Qed.

(** X14. The payload for a user id: always 50 updates, numbered 0 to 49,
    with the message ["Update <i> for <userId>"] and one clock reading each;
    all of them carry the same [sessionData], which is a reference to a
    registered session object of that user id, and is undefined exactly when
    no registered session has the user id. Building it changes nothing in
    the gateway. *)
Theorem update_payload_shape :
  ∀ (uid : string) (w : World),
    ∃ updates,
      generateFakeUpdates clock uid w
      = (Returned (uid, updates), with_clockReads (clockReads w + 50) w)
      ∧ upd_id <$> updates = seq 0 50
      ∧ upd_timestamp <$> updates = clock <$> seq (clockReads w) 50
      ∧ Forall (λ u, upd_message u
                     = "Update " +:+ pretty (Z.of_nat (upd_id u)) +:+ " for " +:+ uid) updates
      ∧ Forall (λ u, sessionData u = find_session uid w) updates
      ∧ (find_session uid w = None
         ↔ ∀ l s, l ∈ JsMap.values (userSessions w) → heap w !! l = Some s → userId s ≠ uid)
      ∧ (∀ l, find_session uid w = Some l →
              l ∈ JsMap.values (userSessions w)
              ∧ ∃ s, heap w !! l = Some s ∧ userId s = uid).
Proof.
  intros uid w. eexists. split; [apply generateFakeUpdates_eq|].
  split_and!.
  - apply updates_from_ids.
  - apply updates_from_timestamps.
  - apply updates_from_messages.
  - apply updates_from_sessionData.
  - apply find_session_None.
  - apply find_session_Some.
Qed.

(** X15. When an interval started by subscribe_updates fires, the client
    it was started for receives exactly one [user_updates] event, carrying
    the payload for the subscribed user id, and nothing else changes. *)
Theorem update_interval_fires :
  ∀ (w : World) (t : TimerId) (socket uid : string) (ms : Z),
    activeIntervals w !! t = Some (mkInterval (updateInterval socket uid) ms) →
    ∃ updates,
      length updates = 50
      ∧ (generateFakeUpdates clock uid w).1 = Returned (uid, updates)
      ∧ fire clock t w
        = (Returned (),
           with_effect (Emit socket (user_updates uid updates))
                       (with_clockReads (clockReads w + 50) w)).
Proof.
  intros w t socket uid ms Ht. eexists. split_and!.
  - apply (updates_from_length clock uid (find_session uid w) (clockReads w) (seq 0 50)).
  - by rewrite generateFakeUpdates_eq.
  - unfold fire. unfold mbind at 1, M_bind. unfold gets at 1. rewrite Ht.
    unfold run_task, task, updateInterval_callback. unfold mbind at 1, M_bind.
    by rewrite generateFakeUpdates_eq.
Qed.

(** A subscription of a client with a session adds one interval. *)
Lemma subscribe_adds_interval d c w :
  well_formed w →
  is_Some (JsMap.get (client_id c) (userSessions w)) →
  size (activeIntervals (step clock (subscribe_updates d c) w)) = S (size (activeIntervals w)).
Proof.
  intros Hw [l Hl]. unfold step, exec. rewrite handleSubscribeUpdates_eq, Hl. simpl.
  apply map_size_insert_None.
  destruct (activeIntervals w !! nextTimer w) as [i|] eqn:Hi; [|done].
  apply (wf_fresh w Hw) in Hi. lia.
Qed.

Lemma subscriptions_add_intervals d c k w :
  well_formed w →
  is_Some (JsMap.get (client_id c) (userSessions w)) →
  size (activeIntervals (run clock (replicate k (subscribe_updates d c)) w))
  = size (activeIntervals w) + k.
Proof.
  revert w. induction k as [|k IH]; intros w Hw Hc; [simpl; lia|].
  rewrite replicate_S, run_cons, IH.
  - rewrite subscribe_adds_interval by done. lia.
  - by apply well_formed_step.
  - unfold step, exec. by rewrite handleSubscribeUpdates_keeps_userSessions.
Qed.

(** X16. Every subscribe_updates call starts one more interval: from any
    reachable state in which the caller has a session, [k] calls in a row
    leave [k] more active intervals than before, even when they repeat the
    same user id. *)
Theorem subscriptions_accumulate :
  ∀ (ops : list Op) (d : SubscribeData) (c : Socket) (k : nat),
    let w := run clock ops initial in
    is_Some (JsMap.get (client_id c) (userSessions w)) →
    size (activeIntervals (run clock (replicate k (subscribe_updates d c)) w))
    = size (activeIntervals w) + k.
Proof.
  intros ops d c k w Hc. apply subscriptions_add_intervals; [|done].
  apply reachable_well_formed.
Qed.

End Updates.

Lemma update_interval_fires_witness :
  activeIntervals (run tick_clock [connect alice; subscribe_updates (mkSubscribeData "u1") alice]
                       initial) !! 2
  = Some (mkInterval (updateInterval "a" "u1") 2000)
  ∧ ∃ updates : list Update,
      length updates = 50
      ∧ (fire tick_clock 2
           (run tick_clock [connect alice; subscribe_updates (mkSubscribeData "u1") alice]
                initial)).1 = Returned ().
Proof.
  split; [reflexivity|].
  destruct (update_interval_fires tick_clock
              (run tick_clock [connect alice; subscribe_updates (mkSubscribeData "u1") alice]
                   initial) 2 "a" "u1" 2000 eq_refl) as (updates & Hlen & _ & Hfire).
  exists updates. split; [exact Hlen|]. exact (f_equal fst Hfire).
Defined.

Lemma subscriptions_accumulate_witness :
  is_Some (JsMap.get (client_id alice) (userSessions (run tick_clock [connect alice] initial)))
  ∧ size (activeIntervals
            (run tick_clock (replicate 3 (subscribe_updates (mkSubscribeData "u1") alice))
                 (run tick_clock [connect alice] initial)))
    = size (activeIntervals (run tick_clock [connect alice] initial)) + 3.
Proof.
  assert (H : is_Some (JsMap.get (client_id alice)
                         (userSessions (run tick_clock [connect alice] initial))))
    by (vm_compute; eauto).
  split; [exact H|].
  exact (subscriptions_accumulate tick_clock [connect alice] (mkSubscribeData "u1") alice 3 H).
Defined.

(** ** Reconnecting and disconnecting again *)

Section Reconnect.
Variable clock : nat → Z.

Lemma resource_step_keeps_orphan w w' l t i :
  well_formed w → resource_step w w' → orphaned w l t i → orphaned w' l t i.
Proof.
  intros Hw Hstep (Hval & Hlen & Ht & socket & Htask).
  pose proof (wf_fresh w Hw t i Ht) as Hlt.
  destruct Hstep as [Hh Hm Hi Hn | c s _ _ _ _ Hh Hm Hi Hn
                     | k l' s t0 Hk Hs Ht0 Hh Hm Hi Hn | socket' uid Hh Hm Hi Hn].
  - unfold orphaned. rewrite Hh, Hm, Hi. by eauto.
  - unfold orphaned. rewrite Hh, Hm, Hi, length_app. split_and!.
    + intros [->|Hin]%JsMap_values_set; [lia | done].
    + lia.
    + by rewrite lookup_insert_ne by lia.
    + by eauto.
  - unfold orphaned. rewrite Hh, Hm, Hi. split_and!; [done | done | | by eauto].
    destruct (wf_session w Hw l' s Hs) as (t1 & Ht1 & _ & _ & _ & Hact).
    rewrite Ht1 in Ht0. injection Ht0 as <-.
    destruct (decide (t1 = t)) as [->|Hne]; [|by rewrite lookup_delete_ne].
    specialize (Hact i Ht). subst i. simpl in Htask. injection Htask as _ <-.
    destruct Hval. by apply (JsMap_get_values k).
  - unfold orphaned. rewrite Hh, Hm, Hi. split_and!; [done | done | | by eauto].
    by rewrite lookup_insert_ne by lia.
Qed.

Lemma run_keeps_orphan ops w l t i :
  well_formed w → orphaned w l t i → orphaned (run clock ops w) l t i.
Proof.
  revert w. induction ops as [|op ops IH]; intros w Hw Ho; [done|].
  rewrite run_cons. apply IH; [by apply well_formed_step|].
  apply (resource_step_keeps_orphan w); [done | apply step_resource | done].
Qed.

(** X18. A connect under an id that is already registered orphans the
    prior session: its connection timer can never be cleared again. From
    any reachable state, after two connects with the same client id, the
    timer started by the first one is still active after every
    continuation, whatever disconnects it contains. *)
Theorem reconnect_orphans_timer :
  ∀ (ops : list Op) (c c' : Socket) (ops' : list Op),
    client_id c' = client_id c →
    let w := run clock ops initial in
    activeIntervals (run clock ops' (step clock (connect c') (step clock (connect c) w)))
      !! nextTimer w
    = Some (mkInterval (connectionTimer (client_id c) (length (heap w))) 1000).
Proof.
  intros ops c c' ops' Hid w.
  assert (Hw : well_formed w) by apply reachable_well_formed.
  pose proof (wf_fresh w Hw) as Hfresh.
  set (w2 := step clock (connect c') (step clock (connect c) w)).
  assert (Hw2 : well_formed w2) by (by do 2 apply well_formed_step).
  assert (Ho : orphaned w2 (length (heap w)) (nextTimer w)
                 (mkInterval (connectionTimer (client_id c) (length (heap w))) 1000)).
  { subst w2. unfold step, exec. rewrite !handleConnection_eq. simpl.
    unfold orphaned. simpl. rewrite Hid, JsMap_set_set, !length_app. simpl. split_and!.
    - intros [Heq|Hin]%JsMap_values_set; [lia|]. apply (wf_values w Hw) in Hin. lia.
    - lia.
    - rewrite lookup_insert_ne by lia. apply lookup_insert_eq.
    - by eexists. }
  destruct (run_keeps_orphan ops' w2 _ _ _ Hw2 Ho) as (_ & _ & H & _). exact H.
Qed.

(** X19. disconnect is idempotent on the state: in every reachable state,
    a second disconnect of the same client, right after the first, changes
    none of the collections, whether or not the client has a session. *)
Theorem disconnect_idempotent :
  ∀ (ops : list Op) (c : Socket),
    let w1 := exec (handleDisconnect c) (run clock ops initial) in
    let w2 := exec (handleDisconnect c) w1 in
    heap w2 = heap w1 ∧ userSessions w2 = userSessions w1
    ∧ activeIntervals w2 = activeIntervals w1 ∧ nextTimer w2 = nextTimer w1
    ∧ messageHistory w2 = messageHistory w1
    ∧ globalEventHandlers w2 = globalEventHandlers w1
    ∧ socketListeners w2 = socketListeners w1.
Proof.
  intros ops c w1 w2. subst w2.
  split_and!.
  - exact (handleDisconnect_keeps_heap c w1).
  - exact (handleDisconnect_keeps_userSessions c w1).
  - destruct (handleDisconnect_activeIntervals c w1)
      as [H|(l & s & t0 & Hl & Hs & Ht0 & ->)]; [done|].
    apply delete_id. subst w1. unfold exec in Hl, Hs.
    rewrite handleDisconnect_keeps_userSessions in Hl.
    rewrite handleDisconnect_keeps_heap in Hs.
    destruct (wf_session _ (reachable_well_formed clock ops) l s Hs) as (t1 & Ht1 & _).
    rewrite Ht1 in Ht0. injection Ht0 as <-.
    destruct (handleDisconnect_eq_present c _ l s t1 [] Hl Hs Ht1) as [-> _].
    apply lookup_delete_eq.
  - exact (handleDisconnect_keeps_nextTimer c w1).
  - exact (handleDisconnect_keeps_messageHistory c w1).
  - exact (handleDisconnect_keeps_globalEventHandlers c w1).
  - exact (handleDisconnect_keeps_socketListeners c w1).
Qed.

End Reconnect.

Lemma reconnect_orphans_timer_witness :
  client_id alice = client_id alice
  ∧ activeIntervals
      (run tick_clock [disconnect alice; disconnect alice]
         (step tick_clock (connect alice) (step tick_clock (connect alice)
            (run tick_clock [] initial))))
    !! 1
    = Some (mkInterval (connectionTimer "a" 0) 1000).
Proof.
  split; [reflexivity|].
  exact (reconnect_orphans_timer tick_clock [] alice alice [disconnect alice; disconnect alice]
           eq_refl).
Defined.
